(** * markdown-it-katex: delimiter scanning and render adapter

    A shallow embedding of the plugin's two variants:
    - the primary implementation ([isValidDelimiter], [math_inline],
      [math_block], [escapeHtml], [renderInline], [renderBlock]);
    - the legacy variant (module [Legacy]: [isValidDelim], [math_inline],
      [math_block], [escapeHtml], [katexInline], [katexBlock]).

    JavaScript strings are modelled by [string] (a sequence of 8-bit code
    units), indices and char codes by [Z].  A read outside a string gives
    [None] (JavaScript's [undefined], or [NaN] for [charCodeAt]).

    A scanning rule mutates the host's state and returns a boolean: it is
    a function from the state and the mode to the boolean and the state
    the call leaves.  A render rule returns markup or throws: it is a
    function into [Outcome].  The typesetting engine and the environment
    are parameters of the render rules; the host's [getLines] is a field
    of the block state. *)

From Equations Require Import Equations.
From Stdlib Require Import ZArith Lia List Bool Ascii String.
Import ListNotations.

Local Open Scope string_scope.
Local Open Scope Z_scope.

(** ** JavaScript string primitives used by the plugin *)

Module Js.

(** [s[i]]: [None] stands for [undefined]. *)
Definition char_at (s : string) (i : Z) : option ascii :=
  if i <? 0 then None else String.get (Z.to_nat i) s.

(** [s.charCodeAt(i)]: [None] stands for [NaN]. *)
Definition charCodeAt (s : string) (i : Z) : option Z :=
  option_map (fun c => Z.of_nat (nat_of_ascii c)) (char_at s i).

(** Comparisons of a char code with a constant; every comparison with
    [NaN] is false. *)
Definition code_eq (c : option Z) (k : Z) : bool :=
  match c with Some v => v =? k | None => false end.
Definition code_ge (c : option Z) (k : Z) : bool :=
  match c with Some v => k <=? v | None => false end.
Definition code_le (c : option Z) (k : Z) : bool :=
  match c with Some v => v <=? k | None => false end.

(** [s[i] === c] for a one-character string [c]. *)
Definition char_is (o : option ascii) (c : ascii) : bool :=
  match o with Some a => Ascii.eqb a c | None => false end.

Definition len (s : string) : Z := Z.of_nat (String.length s).

(** Relative index resolution shared by [slice]'s two arguments. *)
Definition rel_index (n k : Z) : Z :=
  if k <? 0 then Z.max (n + k) 0 else Z.min k n.

(** [s.slice(a, b)]. *)
Definition slice (s : string) (a b : Z) : string :=
  let from := rel_index (len s) a in
  let to := rel_index (len s) b in
  substring (Z.to_nat from) (Z.to_nat (to - from)) s.

(** [s.slice(a)]. *)
Definition slice_from (s : string) (a : Z) : string := slice s a (len s).

(** [needle] occurs in [s] at its head. *)
Fixpoint starts_with (needle s : string) {struct needle} : bool :=
  match needle with
  | EmptyString => true
  | String a needle' =>
      match s with
      | EmptyString => false
      | String b s' => Ascii.eqb a b && starts_with needle' s'
      end
  end.

(** [s.indexOf(needle, position)], [-1] when there is no occurrence.
    [k] is the absolute index of the head of [s]; [skip] counts the
    characters still to pass before [position]. *)
Fixpoint indexOf_from (needle s : string) (skip : nat) (k : Z) {struct s} : Z :=
  match skip with
  | S n =>
      match s with
      | EmptyString => if starts_with needle EmptyString then k else -1
      | String _ s' => indexOf_from needle s' n (k + 1)
      end
  | O =>
      if starts_with needle s then k
      else match s with
           | EmptyString => -1
           | String _ s' => indexOf_from needle s' O (k + 1)
           end
  end.

Definition indexOf (s needle : string) (position : Z) : Z :=
  indexOf_from needle s (Z.to_nat position) 0.

(** [s.lastIndexOf(needle)]. *)
Fixpoint lastIndexOf_from (needle s : string) (k : Z) : Z :=
  match s with
  | EmptyString => if starts_with needle EmptyString then k else -1
  | String _ s' =>
      let later := lastIndexOf_from needle s' (k + 1) in
      if later =? -1 then (if starts_with needle s then k else -1) else later
  end.

Definition lastIndexOf (s needle : string) : Z := lastIndexOf_from needle s 0.

(** White space and line terminators removed by [trim], as far as they
    fit in a code unit of the model: TAB, LF, VT, FF, CR, SP, NBSP. *)
Definition is_white (c : ascii) : bool :=
  let n := Z.of_nat (nat_of_ascii c) in
  ((9 <=? n) && (n <=? 13)) || (n =? 32) || (n =? 160).

Fixpoint trimStart (s : string) : string :=
  match s with
  | EmptyString => EmptyString
  | String c s' => if is_white c then trimStart s' else s
  end.

Fixpoint trimEnd (s : string) : string :=
  match s with
  | EmptyString => EmptyString
  | String c s' =>
      match trimEnd s' with
      | EmptyString => if is_white c then EmptyString else String c EmptyString
      | r => String c r
      end
  end.

Definition trim (s : string) : string := trimEnd (trimStart s).

(** [s.replace(/c/g, by)] for a single-character pattern. *)
Fixpoint replace_all (c : ascii) (by_ : string) (s : string) : string :=
  match s with
  | EmptyString => EmptyString
  | String a s' =>
      if Ascii.eqb a c then by_ ++ replace_all c by_ s'
      else String a (replace_all c by_ s')
  end.

(** Case analysis on a computed value that keeps its defining equation. *)
Definition inspect {A : Type} (x : A) : { y : A | x = y } := exist _ x eq_refl.

(** Truthiness of a string: [''] is falsy. *)
Definition truthy (s : string) : bool :=
  match s with EmptyString => false | _ => true end.

End Js.

(** ** Host tokenizer state (markdown-it), as far as the plugin uses it *)

Record Token := mkToken {
  ttype : string;
  tag : string;
  nesting : Z;
  markup : string;
  content : string;
  block : bool;
  map : option (Z * Z)
}.

(** The token a host [state.push(type, tag, nesting)] creates: the
    fields the plugin does not assign keep the host's initial values. *)
Definition new_token (type_ tag_ : string) (nesting_ : Z) : Token :=
  mkToken type_ tag_ nesting_ "" "" false None.

Record StateInline := mkInline {
  src : string;
  pos : Z;
  posMax : Z;
  pending : string;
  tokens : list Token
}.

Record Delimiter := mkDelim { can_open : bool; can_close : bool }.

(** ** Primary implementation: inline scanning *)

Definition isValidDelimiter (state : StateInline) (pos : Z) : Delimiter :=
  let max := posMax state in
  let prevChar := if pos >? 0 then Js.charCodeAt (src state) (pos - 1) else Some (-1) in
  let nextChar := if pos + 1 <=? max then Js.charCodeAt (src state) (pos + 1) else Some (-1) in
  let can_close :=
    if Js.code_eq prevChar 0x20 || Js.code_eq prevChar 0x09
       || (Js.code_ge nextChar 0x30 && Js.code_le nextChar 0x39)
    then false else true in
  let can_open :=
    if Js.code_eq nextChar 0x20 || Js.code_eq nextChar 0x09
    then false else true in
  {| can_open := can_open; can_close := can_close |}.

(** The inner loop [while (state.src[pos] === "\\") { pos -= 1; }].
    It ends because a read below index 0 is [undefined]. *)
Equations? skip_escapes (s : string) (p : Z) : Z by wf (Z.to_nat (p + 1)) lt :=
  skip_escapes s p with Js.inspect (Js.char_is (Js.char_at s p) "\") => {
    | exist _ true _ => skip_escapes s (p - 1);
    | exist _ false _ => p
  }.
Proof.
  unfold Js.char_at in e. destruct (Z.ltb_spec p 0); [discriminate e | lia].
Qed.

(** What [indexOf] returns for the needle ["$"]: the first index at or
    after the start position that holds the character, or [-1]. *)
Lemma indexOf_from_dollar (s : string) (skip : nat) (k : Z) :
  0 <= k ->
  let r := Js.indexOf_from "$" s skip k in
  (r = -1 /\ forall j, (skip <= j)%nat -> String.get j s <> Some "$"%char)
  \/ (k + Z.of_nat skip <= r < k + Js.len s
      /\ String.get (Z.to_nat (r - k)) s = Some "$"%char
      /\ forall j, (skip <= j)%nat -> Z.of_nat j < r - k ->
                   String.get j s <> Some "$"%char).
Proof.
  revert skip k. induction s as [|c s IH]; intros skip k Hk; cbn zeta.
  - left. destruct skip; simpl; (split; [reflexivity|]); intros j _; destruct j; discriminate.
  - destruct skip as [|n].
    + cbn [Js.indexOf_from Js.starts_with]. rewrite andb_true_r.
      destruct (Ascii.eqb_spec "$" c) as [Hc|Hc].
      * subst c. right. unfold Js.len. cbn [String.length]. replace (k - k) with 0 by lia.
        split; [lia|]. split; [reflexivity|]. intros j _ Hj. lia.
      * specialize (IH O (k + 1) ltac:(lia)). cbn zeta in IH.
        destruct IH as [[E H]|(B & G & H)].
        -- left. split; [exact E|]. intros [|j] _; simpl.
           ++ intros [= ->]. apply Hc. reflexivity.
           ++ apply H. lia.
        -- right. unfold Js.len in *. cbn [String.length]. split; [lia|]. split.
           ++ replace (Z.to_nat (Js.indexOf_from "$" s 0 (k + 1) - k))
                with (S (Z.to_nat (Js.indexOf_from "$" s 0 (k + 1) - (k + 1)))) by lia.
              exact G.
           ++ intros [|j] _ Hj; simpl.
              ** intros [= ->]. apply Hc. reflexivity.
              ** apply H; lia.
    + cbn [Js.indexOf_from]. specialize (IH n (k + 1) ltac:(lia)). cbn zeta in IH.
      destruct IH as [[E H]|(B & G & H)].
      * left. split; [exact E|]. intros [|j] Hj; [lia|]. simpl. apply H. lia.
      * right. unfold Js.len in *. cbn [String.length]. split; [lia|]. split.
        -- replace (Z.to_nat (Js.indexOf_from "$" s n (k + 1) - k))
             with (S (Z.to_nat (Js.indexOf_from "$" s n (k + 1) - (k + 1)))) by lia.
           exact G.
        -- intros [|j] Hj Hlt; [lia|]. simpl. apply H; lia.
Qed.

Lemma indexOf_dollar_range (s : string) (m : Z) :
  Js.indexOf s "$" m <> -1 ->
  m <= Js.indexOf s "$" m < Js.len s.
Proof.
  unfold Js.indexOf. intros Hr.
  destruct (indexOf_from_dollar s (Z.to_nat m) 0 ltac:(lia)) as [[E _]|(B & _)];
    [contradiction | lia].
Qed.

(** The search loop
    [while ((match = state.src.indexOf("$", match)) !== -1) { ... }];
    the result is the value of [match] when the loop is left. *)
Equations? find_closing (s : string) (match_ : Z) : Z
  by wf (Z.to_nat (Js.len s - match_)) lt :=
  find_closing s match_ with Js.inspect (Js.indexOf s "$" match_) => {
    | exist _ found _ with Js.inspect (found =? -1) => {
      | exist _ true _ => found;
      | exist _ false _
          with Js.inspect (Z.rem (found - skip_escapes s (found - 1)) 2 =? 1) => {
          | exist _ true _ => found;
          | exist _ false _ => find_closing s (found + 1)
        }
      }
  }.
Proof.
  apply Z.eqb_neq in e0.
  pose proof (indexOf_dollar_range s match_ e0). lia.
Qed.

(** State updates of the inline rule. *)
Definition set_pos (state : StateInline) (p : Z) : StateInline :=
  mkInline (src state) p (posMax state) (pending state) (tokens state).

Definition add_pending (state : StateInline) (text : string) : StateInline :=
  mkInline (src state) (pos state) (posMax state)
           (pending state ++ text)%string (tokens state).

(** The host's [pushPending], which [push] calls first when the pending
    text is not empty: the pending text becomes the content of a new
    [text] token at the end of the list and is cleared.  (The host is
    markdown-it's inline state; of its token only the fields of [Token]
    are kept.) *)
Definition pushPending (state : StateInline) : StateInline :=
  let token := new_token "text" "" 0 in
  mkInline (src state) (pos state) (posMax state) ""
           (tokens state
            ++ [mkToken (ttype token) (tag token) (nesting token) (markup token)
                        (pending state) (block token) (map token)]).

(** [token = state.push(type, tag, nesting)] followed by the assignments
    to the token's fields.  The host's [push] flushes a non-empty pending
    text with [pushPending] and then appends the new token; the token
    object is the one held by the state's list, so the list ends with the
    token as finally assigned. *)
Definition push_inline (state : StateInline) (token : Token) : StateInline :=
  let state := if Js.truthy (pending state) then pushPending state else state in
  mkInline (src state) (pos state) (posMax state) (pending state)
           (tokens state ++ [token]).

Definition inline_token (text : string) : Token :=
  let token := new_token "math_inline" "math" 0 in
  mkToken (ttype token) (tag token) (nesting token) "$" text
          (block token) (map token).

(** [math_inline(state, silent)]: the returned boolean and the state as
    the call leaves it. *)
Definition math_inline (state : StateInline) (silent : bool) : bool * StateInline :=
  if negb (Js.char_is (Js.char_at (src state) (pos state)) "$") then (false, state)
  else
    let res := isValidDelimiter state (pos state) in
    if negb (can_open res) then
      let state := if negb silent then add_pending state "$" else state in
      (true, set_pos state (pos state + 1))
    else
      let start := pos state + 1 in
      let match_ := find_closing (src state) start in
      if match_ =? -1 then
        let state := if negb silent then add_pending state "$" else state in
        (true, set_pos state start)
      else if match_ - start =? 0 then
        let state := if negb silent then add_pending state "$$" else state in
        (true, set_pos state (start + 1))
      else
        let res := isValidDelimiter state match_ in
        if negb (can_close res) then
          let state := if negb silent then add_pending state "$" else state in
          (true, set_pos state start)
        else
          let state :=
            if negb silent
            then push_inline state (inline_token (Js.slice (src state) start match_))
            else state in
          (true, set_pos state (match_ + 1)).

(** ** Primary implementation: block scanning *)

(** The host's block state.  The line tables map a line number to an
    offset ([state.bMarks[line]] and so on); the host keeps an entry for
    every line it hands to a rule, and reads outside the tables are not
    modelled.  [getLines] is the method
    [state.getLines(begin, end, indent, keepLastLF)] of the state object,
    which reads the buffer and the tables only. *)
Record StateBlock := mkBlock {
  bsrc : string;
  bMarks : Z -> Z;
  tShift : Z -> Z;
  eMarks : Z -> Z;
  blkIndent : Z;
  line : Z;
  getLines : Z -> Z -> Z -> bool -> string;
  btokens : list Token
}.

(** The line feed and the double quote, as one-character strings. *)
Definition LF : string := String "010"%char EmptyString.
Definition DQ : string := String "034"%char EmptyString.

(** The body of [for (next = start; !found;) { ... }], entered with
    [found] false.  The result is [next] when the loop is left and
    [lastLine] ([None] while it is still [undefined]). *)
Equations? scan_lines (state : StateBlock) (end_ : Z) (next : Z) : Z * option string
  by wf (Z.to_nat (end_ - next)) lt :=
  scan_lines state end_ next with Js.inspect (next + 1 >=? end_) => {
    | exist _ true _ => (next + 1, None);
    | exist _ false _ =>
        let next := next + 1 in
        let pos := bMarks state next + tShift state next in
        let max := eMarks state next in
        if (pos <? max) && (tShift state next <? blkIndent state) then (next, None)
        else if (Js.slice_from (Js.trim (Js.slice (bsrc state) pos max)) (-2) =? "$$")%string then
          let lastPos := Js.lastIndexOf (Js.slice (bsrc state) 0 max) "$$" in
          let lastLine := Js.slice (bsrc state) pos lastPos in
          (next, Some lastLine)
        else scan_lines state end_ next
  }.
Proof.
  lia.
Qed.

Definition set_line_push (state : StateBlock) (l : Z) (token : Token) : StateBlock :=
  mkBlock (bsrc state) (bMarks state) (tShift state) (eMarks state)
          (blkIndent state) l (getLines state) (btokens state ++ [token]).

Definition block_token (text : string) (lines : Z * Z) : Token :=
  let token := new_token "math_block" "math" 0 in
  mkToken (ttype token) (tag token) (nesting token) "$$" text true (Some lines).

(** [math_block(state, start, end, silent)]. *)
Definition math_block (state : StateBlock) (start end_ : Z) (silent : bool)
  : bool * StateBlock :=
  let pos := bMarks state start + tShift state start in
  let max := eMarks state start in
  if pos + 2 >? max then (false, state)
  else if negb (Js.slice (bsrc state) pos (pos + 2) =? "$$")%string then (false, state)
  else
    let pos := pos + 2 in
    let firstLine := Js.slice (bsrc state) pos max in
    if silent then (true, state)
    else
      let single := (Js.slice_from (Js.trim firstLine) (-2) =? "$$")%string in
      let firstLine := if single then Js.slice (Js.trim firstLine) 0 (-2) else firstLine in
      let found := single in
      let '(next, lastLine) :=
        if found then (start, None) else scan_lines state end_ start in
      let line_ := next + 1 in
      let text :=
        ((if Js.truthy firstLine && Js.truthy (Js.trim firstLine)
          then firstLine ++ LF else "")
         ++ getLines state (start + 1) next (tShift state start) true
         ++ (match lastLine with
             | Some l => if Js.truthy l && Js.truthy (Js.trim l) then l else ""
             | None => ""
             end))%string in
      (true, set_line_push state line_ (block_token text (start, line_))).

(** ** Primary implementation: rendering *)

(** An error object raised by the engine: what its [toString()] gives,
    and the entries of its [diagnostics] property (none when the property
    is undefined). *)
Record KatexError := mkError {
  err_text : string;
  err_diagnostics : list (string * string)
}.

(** What the engine call [katex.renderToString(...)] does. *)
Inductive EngineResult :=
| Rendered (markup : string)
| Failed (error : KatexError).

(** Values thrown by a render rule. *)
Inductive JsError :=
| Raised (error : KatexError)
    (** the engine's error object, thrown again *)
| TypeError (what : string)
    (** raised by the runtime for a property read on [undefined] *)
| LegacyError (message source : string) (error : KatexError)
    (** the object [{ message, source, error }] of the legacy variant *).

Inductive Outcome (A : Type) :=
| Return (a : A)
| Throw (e : JsError).
Arguments Return {A} a.
Arguments Throw {A} e.

Definition bind {A B : Type} (x : Outcome A) (f : A -> Outcome B) : Outcome B :=
  match x with Return a => f a | Throw e => Throw e end.

Notation "x <- c ;; k" := (bind c (fun x => k))
  (at level 61, c at next level, right associativity).

(** [Object.assign({}, d, { source: maths })] on the entries of [d]. *)
Fixpoint assign_source (d : list (string * string)) (maths : string)
  : list (string * string) :=
  match d with
  | [] => [("source", maths)]
  | (k, v) :: d' =>
      if (k =? "source")%string then (k, maths) :: d'
      else (k, v) :: assign_source d' maths
  end.

(** [error.diagnostics = Object.assign({}, error.diagnostics, { source })]. *)
Definition set_diagnostics_source (error : KatexError) (maths : string) : KatexError :=
  mkError (err_text error) (assign_source (err_diagnostics error) maths).

Section Rendering.

(** The environment value the host hands to a render rule. *)
Variable Env : Type.

(** The [throwOnError] option: a predicate on the environment, a flag,
    or absent. *)
Inductive ThrowOnError :=
| ThrowFn (f : Env -> bool)
| ThrowFlag (b : bool)
| ThrowAbsent.

(** The plugin's options object.  [None] is a property that is absent
    (or [undefined]); [blockWrapper] keeps the two apart, because
    [Object.assign] copies a property that is present with the value
    [undefined].  [macros] stands for what is only handed on to the
    engine. *)
Record Options := mkOptions {
  blockWrapper : option (option string);
  throwOnError : ThrowOnError;
  errorColor : option string;
  macros : list (string * string)
}.

(** The engine, [katex.renderToString(maths, options)]: the options it
    receives and the [displayMode] among them. *)
Variable renderToString : string -> Options -> bool -> EngineResult.

(** [options = Object.assign({ blockWrapper: 'div' }, options)]. *)
Definition default_options (options : Options) : Options :=
  mkOptions (match blockWrapper options with
             | None => Some (Some "div")
             | present => present
             end)
            (throwOnError options) (errorColor options) (macros options).

(** A value of [options.blockWrapper] inside a template literal. *)
Definition template_string (v : option (option string)) : string :=
  match v with
  | Some (Some s) => s
  | _ => "undefined"
  end.

(** [typeof options.throwOnError === 'function'
      ? options.throwOnError(env) : !!options.throwOnError]. *)
Definition resolve_throwOnError (options : Options) (env : Env) : bool :=
  match throwOnError options with
  | ThrowFn f => f env
  | ThrowFlag b => b
  | ThrowAbsent => false
  end.

(** [Object.assign({}, options, { throwOnError, displayMode })]; the
    display mode is the engine's third argument. *)
Definition engine_options (options : Options) (flag : bool) : Options :=
  mkOptions (blockWrapper options) (ThrowFlag flag) (errorColor options)
            (macros options).

(** [escapeHtml(unsafe)] on a string. *)
Definition escapeHtml (unsafe : string) : string :=
  Js.replace_all "'" "&#039;"
    (Js.replace_all "034" "&quot;"
      (Js.replace_all ">" "&gt;"
        (Js.replace_all "<" "&lt;"
          (Js.replace_all "&" "&amp;" unsafe)))).

(** A call [escapeHtml(v)] whose argument may be [undefined]: the method
    call [unsafe.replace] then throws. *)
Definition escapeHtml_call (unsafe : option string) : Outcome string :=
  match unsafe with
  | None => Throw (TypeError "Cannot read properties of undefined (reading 'replace')")
  | Some unsafe => Return (escapeHtml unsafe)
  end.

(** [tokens[idx].content]. *)
Definition token_content (tokens : list Token) (idx : nat) : Outcome string :=
  match nth_error tokens idx with
  | Some token => Return (content token)
  | None => Throw (TypeError "Cannot read properties of undefined (reading 'content')")
  end.

(** The render rules are closures over [options] as [plugin] has
    defaulted it. *)
Definition renderInline (options : Options) (tokens : list Token) (idx : nat)
  (env : Env) : Outcome string :=
  maths <- token_content tokens idx ;;
  let throwOnError := resolve_throwOnError options env in
  match renderToString maths (engine_options options throwOnError) false with
  | Rendered rendered => Return (rendered ++ LF)%string
  | Failed error =>
      if throwOnError then Throw (Raised (set_diagnostics_source error maths))
      else
        color <- escapeHtml_call (errorColor options) ;;
        Return ("<span class=" ++ DQ ++ "katex-error" ++ DQ
                ++ " style=" ++ DQ ++ "color:" ++ color ++ DQ
                ++ " title=" ++ DQ ++ escapeHtml (err_text error) ++ DQ ++ ">"
                ++ escapeHtml maths ++ "</span>")%string
  end.

Definition renderBlock (options : Options) (tokens : list Token) (idx : nat)
  (env : Env) : Outcome string :=
  maths <- token_content tokens idx ;;
  let throwOnError := resolve_throwOnError options env in
  let wrapper := template_string (blockWrapper options) in
  match renderToString maths (engine_options options throwOnError) true with
  | Rendered rendered =>
      Return ("<" ++ wrapper ++ " class=" ++ DQ ++ "katex-block" ++ DQ ++ ">" ++ LF
              ++ rendered ++ LF
              ++ "</" ++ wrapper ++ ">" ++ LF)%string
  | Failed error =>
      if throwOnError then Throw (Raised (set_diagnostics_source error maths))
      else
        Return ("<" ++ wrapper ++ " class=" ++ DQ ++ "katex-block katex-error" ++ DQ
                ++ " title=" ++ DQ ++ escapeHtml (err_text error) ++ DQ ++ ">"
                ++ escapeHtml maths ++ "</" ++ wrapper ++ ">")%string
  end.

(** What [plugin(md, options)] installs in the host: the two scanning
    rules and the two render rules. *)
Record Installed := mkInstalled {
  rule_inline : StateInline -> bool -> bool * StateInline;
  rule_block : StateBlock -> Z -> Z -> bool -> bool * StateBlock;
  render_math_inline : list Token -> nat -> Env -> Outcome string;
  render_math_block : list Token -> nat -> Env -> Outcome string
}.

Definition plugin (options : Options) : Installed :=
  let options := default_options options in
  mkInstalled math_inline math_block (renderInline options) (renderBlock options).

End Rendering.

Arguments ThrowFn {Env} f.
Arguments ThrowFlag {Env} b.
Arguments ThrowAbsent {Env}.
Arguments mkOptions {Env} blockWrapper throwOnError errorColor macros.
Arguments blockWrapper {Env} o.
Arguments throwOnError {Env} o.
Arguments errorColor {Env} o.
Arguments macros {Env} o.
Arguments default_options {Env} options.
Arguments resolve_throwOnError {Env} options env.
Arguments engine_options {Env} options flag.
Arguments renderInline {Env} renderToString options tokens idx env.
Arguments renderBlock {Env} renderToString options tokens idx env.
Arguments plugin {Env} renderToString options.
Arguments rule_inline {Env} i.
Arguments rule_block {Env} i.
Arguments render_math_inline {Env} i.
Arguments render_math_block {Env} i.

(** ** The legacy variant *)

Module Legacy.

Definition isValidDelim (state : StateInline) (pos : Z) : Delimiter :=
  let max := posMax state in
  let prevChar := if pos >? 0 then Js.charCodeAt (src state) (pos - 1) else Some (-1) in
  let nextChar := if pos + 1 <=? max then Js.charCodeAt (src state) (pos + 1) else Some (-1) in
  let can_close :=
    if Js.code_eq prevChar 0x20 || Js.code_eq prevChar 0x09
       || (Js.code_ge nextChar 0x30 && Js.code_le nextChar 0x39)
    then false else true in
  let can_open :=
    if Js.code_eq nextChar 0x20 || Js.code_eq nextChar 0x09
    then false else true in
  {| can_open := can_open; can_close := can_close |}.

(** [while (state.src[pos] === "\\") { pos -= 1; }] *)
Equations? skip_escapes (s : string) (p : Z) : Z by wf (Z.to_nat (p + 1)) lt :=
  skip_escapes s p with Js.inspect (Js.char_is (Js.char_at s p) "\") => {
    | exist _ true _ => skip_escapes s (p - 1);
    | exist _ false _ => p
  }.
Proof.
  unfold Js.char_at in e. destruct (Z.ltb_spec p 0); [discriminate e | lia].
Qed.

Equations? find_closing (s : string) (match_ : Z) : Z
  by wf (Z.to_nat (Js.len s - match_)) lt :=
  find_closing s match_ with Js.inspect (Js.indexOf s "$" match_) => {
    | exist _ found _ with Js.inspect (found =? -1) => {
      | exist _ true _ => found;
      | exist _ false _
          with Js.inspect (Z.rem (found - skip_escapes s (found - 1)) 2 =? 1) => {
          | exist _ true _ => found;
          | exist _ false _ => find_closing s (found + 1)
        }
      }
  }.
Proof.
  apply Z.eqb_neq in e0.
  pose proof (indexOf_dollar_range s match_ e0). lia.
Qed.

Definition math_inline (state : StateInline) (silent : bool) : bool * StateInline :=
  if negb (Js.char_is (Js.char_at (src state) (pos state)) "$") then (false, state)
  else
    let res := isValidDelim state (pos state) in
    if negb (can_open res) then
      let state := if negb silent then add_pending state "$" else state in
      (true, set_pos state (pos state + 1))
    else
      let start := pos state + 1 in
      let match_ := find_closing (src state) start in
      if match_ =? -1 then
        let state := if negb silent then add_pending state "$" else state in
        (true, set_pos state start)
      else if match_ - start =? 0 then
        let state := if negb silent then add_pending state "$$" else state in
        (true, set_pos state (start + 1))
      else
        let res := isValidDelim state match_ in
        if negb (can_close res) then
          let state := if negb silent then add_pending state "$" else state in
          (true, set_pos state start)
        else
          let state :=
            if negb silent
            then push_inline state (inline_token (Js.slice (src state) start match_))
            else state in
          (true, set_pos state (match_ + 1)).

Equations? scan_lines (state : StateBlock) (end_ : Z) (next : Z) : Z * option string
  by wf (Z.to_nat (end_ - next)) lt :=
  scan_lines state end_ next with Js.inspect (next + 1 >=? end_) => {
    | exist _ true _ => (next + 1, None);
    | exist _ false _ =>
        let next := next + 1 in
        let pos := bMarks state next + tShift state next in
        let max := eMarks state next in
        if (pos <? max) && (tShift state next <? blkIndent state) then (next, None)
        else if (Js.slice_from (Js.trim (Js.slice (bsrc state) pos max)) (-2) =? "$$")%string then
          let lastPos := Js.lastIndexOf (Js.slice (bsrc state) 0 max) "$$" in
          let lastLine := Js.slice (bsrc state) pos lastPos in
          (next, Some lastLine)
        else scan_lines state end_ next
  }.
Proof.
  lia.
Qed.

Definition math_block (state : StateBlock) (start end_ : Z) (silent : bool)
  : bool * StateBlock :=
  let pos := bMarks state start + tShift state start in
  let max := eMarks state start in
  if pos + 2 >? max then (false, state)
  else if negb (Js.slice (bsrc state) pos (pos + 2) =? "$$")%string then (false, state)
  else
    let pos := pos + 2 in
    let firstLine := Js.slice (bsrc state) pos max in
    if silent then (true, state)
    else
      let single := (Js.slice_from (Js.trim firstLine) (-2) =? "$$")%string in
      let firstLine := if single then Js.slice (Js.trim firstLine) 0 (-2) else firstLine in
      let found := single in
      let '(next, lastLine) :=
        if found then (start, None) else scan_lines state end_ start in
      let line_ := next + 1 in
      let text :=
        ((if Js.truthy firstLine && Js.truthy (Js.trim firstLine)
          then firstLine ++ LF else "")
         ++ getLines state (start + 1) next (tShift state start) true
         ++ (match lastLine with
             | Some l => if Js.truthy l && Js.truthy (Js.trim l) then l else ""
             | None => ""
             end))%string in
      (true, set_line_push state line_ (block_token text (start, line_))).

Definition escapeHtml (unsafe : string) : string :=
  Js.replace_all "'" "&#039;"
    (Js.replace_all "034" "&quot;"
      (Js.replace_all ">" "&gt;"
        (Js.replace_all "<" "&lt;"
          (Js.replace_all "&" "&amp;" unsafe)))).

Section Rendering.

Variable Env : Type.
Variable renderToString : string -> Options Env -> bool -> EngineResult.

(** Truthiness of [options.throwOnError]: a function is truthy. *)
Definition throwOnError_truthy (options : Options Env) : bool :=
  match throwOnError options with
  | ThrowFn _ => true
  | ThrowFlag b => b
  | ThrowAbsent => false
  end.

(** [katexInline(latex)]; [options.displayMode = false] sets the display
    mode the engine then reads from [options]. *)
Definition katexInline (options : Options Env) (latex : string) : Outcome string :=
  match renderToString latex options false with
  | Rendered rendered => Return rendered
  | Failed error =>
      if throwOnError_truthy options
      then Throw (LegacyError "KaTeX error" latex error)
      else
        Return ("<span class='katex-error' title='" ++ escapeHtml (err_text error)
                ++ "'>" ++ escapeHtml latex ++ "</span>")%string
  end.

Definition inlineRenderer (options : Options Env) (tokens : list Token) (idx : nat)
  : Outcome string :=
  latex <- token_content tokens idx ;;
  katexInline options latex.

Definition katexBlock (options : Options Env) (latex : string) : Outcome string :=
  match renderToString latex options true with
  | Rendered rendered => Return ("<p class='katex-block'>" ++ rendered ++ "</p>")%string
  | Failed error =>
      if throwOnError_truthy options
      then Throw (LegacyError "KaTeX error" latex error)
      else
        Return ("<p class='katex-block katex-error' title='"
                ++ escapeHtml (err_text error) ++ "'>"
                ++ escapeHtml latex ++ "</p>")%string
  end.

Definition blockRenderer (options : Options Env) (tokens : list Token) (idx : nat)
  : Outcome string :=
  latex <- token_content tokens idx ;;
  katexBlock options latex.

(** [math_plugin(md, options)]; [options || {}] leaves an options object
    as it is. *)
Definition math_plugin (options : Options Env) : Installed Env :=
  mkInstalled Env math_inline math_block
    (fun tokens idx _ => inlineRenderer options tokens idx)
    (fun tokens idx _ => blockRenderer options tokens idx).

End Rendering.

Arguments katexInline {Env} renderToString options latex.
Arguments katexBlock {Env} renderToString options latex.
Arguments inlineRenderer {Env} renderToString options tokens idx.
Arguments blockRenderer {Env} renderToString options tokens idx.
Arguments math_plugin {Env} renderToString options.

End Legacy.

(** ** Notions the statements below are written with *)

(** The number of consecutive backslashes that end just before index [n]. *)
Fixpoint backslashes_before (s : string) (n : nat) : nat :=
  match n with
  | O => O
  | S k =>
      if Js.char_is (String.get k s) "\" then S (backslashes_before s k) else O
  end.

(** Index [m] holds a ["$"] preceded by an even number of backslashes. *)
Definition unescaped_dollar (s : string) (m : Z) : Prop :=
  Js.char_at s m = Some "$"%char
  /\ Nat.even (backslashes_before s (Z.to_nat m)) = true.

(** Index [m] holds a ["$"] preceded by an odd number of backslashes. *)
Definition escaped_dollar (s : string) (m : Z) : Prop :=
  Js.char_at s m = Some "$"%char
  /\ Nat.odd (backslashes_before s (Z.to_nat m)) = true.

(** [m] is the first unescaped ["$"] at or after [start]: every ["$"]
    from [start] up to it is escaped. *)
Definition first_unescaped (s : string) (start m : Z) : Prop :=
  start <= m /\ unescaped_dollar s m
  /\ forall j, start <= j < m -> Js.char_at s j = Some "$"%char -> escaped_dollar s j.

(** The tokens a flush of the pending text adds: none when it is empty,
    else one [text] token that holds it. *)
Definition flushed_pending (pend : string) : list Token :=
  match pend with
  | EmptyString => []
  | _ => [mkToken "text" "" 0 "" pend false None]
  end.

Definition space_or_tab (o : option ascii) : Prop :=
  o = Some " "%char \/ o = Some "009"%char.

Definition ascii_digit (o : option ascii) : Prop :=
  exists c, o = Some c /\ (48 <= nat_of_ascii c <= 57)%nat.

(** The character after [p] that lies within the scan limit, if any. *)
Definition next_within_limit (state : StateInline) (p : Z) : option ascii :=
  if p + 1 <=? posMax state then Js.char_at (src state) (p + 1) else None.

(** Line [n] neither stops the loop (non-empty with too small an indent)
    nor closes the block. *)
Definition line_passes (state : StateBlock) (n : Z) : Prop :=
  let pos := bMarks state n + tShift state n in
  let max := eMarks state n in
  (pos <? max) && (tShift state n <? blkIndent state) = false
  /\ (Js.slice_from (Js.trim (Js.slice (bsrc state) pos max)) (-2) =? "$$")%string = false.

(** Line [n] is non-empty and indented less than the enclosing block. *)
Definition line_under_indented (state : StateBlock) (n : Z) : Prop :=
  bMarks state n + tShift state n < eMarks state n
  /\ tShift state n < blkIndent state.

(** Line [n] passes the indentation test and its trimmed text ends with
    the closing marker. *)
Definition line_closes (state : StateBlock) (n : Z) : Prop :=
  let pos := bMarks state n + tShift state n in
  let max := eMarks state n in
  (pos <? max) && (tShift state n <? blkIndent state) = false
  /\ (Js.slice_from (Js.trim (Js.slice (bsrc state) pos max)) (-2) =? "$$")%string = true.

(** The text of the closing line [n] that goes into the content: what
    precedes the last marker. *)
Definition last_line_text (state : StateBlock) (n : Z) : string :=
  let lastLine :=
    Js.slice (bsrc state) (bMarks state n + tShift state n)
             (Js.lastIndexOf (Js.slice (bsrc state) 0 (eMarks state n)) "$$") in
  if Js.truthy lastLine && Js.truthy (Js.trim lastLine) then lastLine else "".

(** The line [start] begins, after its indentation, with the marker. *)
Definition has_marker (state : StateBlock) (start : Z) : Prop :=
  bMarks state start + tShift state start + 2 <= eMarks state start
  /\ Js.slice (bsrc state) (bMarks state start + tShift state start)
              (bMarks state start + tShift state start + 2) = "$$".

(** The text after the marker on line [start]. *)
Definition first_line_rest (state : StateBlock) (start : Z) : string :=
  Js.slice (bsrc state) (bMarks state start + tShift state start + 2)
           (eMarks state start).

(** The content of a block that opens and closes on one line. *)
Definition single_line_text (state : StateBlock) (start : Z) : string :=
  let inner := Js.slice (Js.trim (first_line_rest state start)) 0 (-2) in
  if Js.truthy inner && Js.truthy (Js.trim inner) then (inner ++ LF)%string else "".

(** The opening line of [start] holds the marker and is not closed on
    the same line. *)
Definition opens_block (state : StateBlock) (start : Z) : Prop :=
  let pos := bMarks state start + tShift state start in
  let max := eMarks state start in
  pos + 2 <= max
  /\ Js.slice (bsrc state) pos (pos + 2) = "$$"
  /\ (Js.slice_from (Js.trim (Js.slice (bsrc state) (pos + 2) max)) (-2) =? "$$")%string
     = false.

(** The text the opening line contributes to the content. *)
Definition first_line_text (state : StateBlock) (start : Z) : string :=
  let firstLine :=
    Js.slice (bsrc state) (bMarks state start + tShift state start + 2)
             (eMarks state start) in
  if Js.truthy firstLine && Js.truthy (Js.trim firstLine)
  then (firstLine ++ LF)%string else "".

(** The wrapper tag in force: ["div"] when [blockWrapper] is absent. *)
Definition wrapper_tag {Env : Type} (options : Options Env) : string :=
  match blockWrapper options with
  | None => "div"
  | Some (Some w) => w
  | Some None => "undefined"
  end.

(** Block markup with a given class around the engine's output. *)
Definition block_markup (wrapper class_ rendered : string) : string :=
  ("<" ++ wrapper ++ " class=" ++ DQ ++ class_ ++ DQ ++ ">" ++ LF
   ++ rendered ++ LF ++ "</" ++ wrapper ++ ">" ++ LF)%string.

(** The inline fallback markup for an escaped colour. *)
Definition inline_fallback (color description maths : string) : string :=
  ("<span class=" ++ DQ ++ "katex-error" ++ DQ
   ++ " style=" ++ DQ ++ "color:" ++ color ++ DQ
   ++ " title=" ++ DQ ++ escapeHtml description ++ DQ ++ ">"
   ++ escapeHtml maths ++ "</span>")%string.

(** The block fallback markup. *)
Definition block_fallback (wrapper description maths : string) : string :=
  ("<" ++ wrapper ++ " class=" ++ DQ ++ "katex-block katex-error" ++ DQ
   ++ " title=" ++ DQ ++ escapeHtml description ++ DQ ++ ">"
   ++ escapeHtml maths ++ "</" ++ wrapper ++ ">")%string.

(** The replacement of one character in a single pass over the text. *)
Definition escape_char (c : ascii) : string :=
  if Ascii.eqb c "&" then "&amp;"
  else if Ascii.eqb c "<" then "&lt;"
  else if Ascii.eqb c ">" then "&gt;"
  else if Ascii.eqb c "034" then "&quot;"
  else if Ascii.eqb c "'" then "&#039;"
  else String c "".

Fixpoint escape_each (s : string) : string :=
  match s with
  | EmptyString => EmptyString
  | String c s' => (escape_char c ++ escape_each s')%string
  end.

(** The five characters [escapeHtml] replaces. *)
Definition html_special (c : ascii) : bool :=
  Ascii.eqb c "&" || Ascii.eqb c "<" || Ascii.eqb c ">"
  || Ascii.eqb c "034" || Ascii.eqb c "'".

(** The characters that end a tag, a text node or a quoted attribute. *)
Definition html_delimiter (c : ascii) : bool :=
  Ascii.eqb c "<" || Ascii.eqb c ">" || Ascii.eqb c "034" || Ascii.eqb c "'".

Fixpoint all_chars (p : ascii -> bool) (s : string) : bool :=
  match s with
  | EmptyString => true
  | String c s' => p c && all_chars p s'
  end.

(** The value of key [k] among the entries of an object. *)
Fixpoint entry (k : string) (d : list (string * string)) : option string :=
  match d with
  | [] => None
  | (k', v) :: d' => if (k' =? k)%string then Some v else entry k d'
  end.

(** ** Concrete inputs *)

(** The inline state the host creates over [text], with the cursor at [p]. *)
Definition inline_state (text : string) (p : Z) : StateInline :=
  mkInline text p (Js.len text) "" [].


Definition lines_table (l : list Z) : Z -> Z := fun i => nth (Z.to_nat i) l 0.

(** A block state over [text] with the given tables for [bMarks],
    [tShift] and [eMarks] (each with the host's extra last entry). *)
Definition block_state (text : string) (bm ts em : list Z) (indent : Z)
  (gl : Z -> Z -> Z -> bool -> string) : StateBlock :=
  mkBlock text (lines_table bm) (lines_table ts) (lines_table em) indent 0 gl [].

(** The first item of a list, ["- $$"], then ["  a"], then the line
    ["b"] outside the item; the item's content is indented by 2. *)
Definition list_item_state (gl : Z -> Z -> Z -> bool -> string) : StateBlock :=
  block_state ("- $$" ++ LF ++ "  a" ++ LF ++ "b" ++ LF)
              [0; 5; 9; 11] [2; 2; 0; 0] [4; 8; 10; 11] 2 gl.

(** The document ["$$"], ["foo"], with no closing marker. *)
Definition unterminated_state (gl : Z -> Z -> Z -> bool -> string) : StateBlock :=
  block_state ("$$" ++ LF ++ "foo") [0; 3; 6] [0; 0; 0] [2; 6; 6] 0 gl.

(** An engine that returns its input unchanged. *)
Definition identity_engine {Env : Type} : string -> Options Env -> bool -> EngineResult :=
  fun maths _ _ => Rendered maths.

(** An engine that always raises an error with the given description. *)
Definition failing_engine {Env : Type} (description : string)
  : string -> Options Env -> bool -> EngineResult :=
  fun _ _ _ => Failed (mkError description []).

Definition no_options : Options unit := mkOptions None ThrowAbsent None [].

(** ** The scanners and the escaping on sample inputs *)

Example skip_escapes_ex : skip_escapes "a\\\$" 3 = 0.
Proof. reflexivity. Qed.
Example find_closing_ex1 : find_closing "$a\$b$" 1 = 5.
Proof. reflexivity. Qed.
Example find_closing_ex2 : find_closing "$a\$b" 1 = -1.
Proof. reflexivity. Qed.
Example math_inline_ex1 :
  math_inline (inline_state "$a\$b$" 0) false
  = (true, mkInline "$a\$b$" 6 6 "" [inline_token "a\$b"]).
Proof. reflexivity. Qed.
Example math_inline_ex2 :
  math_inline (inline_state "$ x$" 0) false
  = (true, mkInline "$ x$" 1 4 "$" []).
Proof. reflexivity. Qed.
Example math_inline_ex3 :
  math_inline (inline_state "$x $" 0) false
  = (true, mkInline "$x $" 1 4 "$" []).
Proof. reflexivity. Qed.
Example math_inline_ex4 :
  math_inline (inline_state "$$" 0) false
  = (true, mkInline "$$" 2 2 "$$" []).
Proof. reflexivity. Qed.
Example escapeHtml_ex : escapeHtml "<a & 'b'>" = "&lt;a &amp; &#039;b&#039;&gt;".
Proof. reflexivity. Qed.

(** ** Unfolding the loops *)

Lemma skip_escapes_step (s : string) (p : Z) :
  skip_escapes s p
  = if Js.char_is (Js.char_at s p) "\" then skip_escapes s (p - 1) else p.
Proof.
  funelim (skip_escapes s p); now rewrite e.
Qed.

Lemma find_closing_step (s : string) (m : Z) :
  find_closing s m
  = let found := Js.indexOf s "$" m in
    if found =? -1 then found
    else if Z.rem (found - skip_escapes s (found - 1)) 2 =? 1 then found
    else find_closing s (found + 1).
Proof.
  funelim (find_closing s m); cbn zeta.
  - now rewrite e0.
  - now rewrite e0, e1.
  - now rewrite e0, e1.
Qed.

Lemma scan_lines_step (state : StateBlock) (end_ next : Z) :
  scan_lines state end_ next
  = if next + 1 >=? end_ then (next + 1, None)
    else
      let next := next + 1 in
      let pos := bMarks state next + tShift state next in
      let max := eMarks state next in
      if (pos <? max) && (tShift state next <? blkIndent state) then (next, None)
      else if (Js.slice_from (Js.trim (Js.slice (bsrc state) pos max)) (-2) =? "$$")%string then
        (next, Some (Js.slice (bsrc state) pos
                       (Js.lastIndexOf (Js.slice (bsrc state) 0 max) "$$")))
      else scan_lines state end_ next.
Proof.
  funelim (scan_lines state end_ next); now rewrite e.
Qed.

(** ** The backslash count and the parity test *)

Lemma char_at_of_nat (s : string) (k : nat) :
  Js.char_at s (Z.of_nat k) = String.get k s.
Proof.
  unfold Js.char_at. destruct (Z.ltb_spec (Z.of_nat k) 0); [lia|].
  now rewrite Nat2Z.id.
Qed.

Lemma char_at_negative (s : string) (i : Z) : i < 0 -> Js.char_at s i = None.
Proof.
  intros H. unfold Js.char_at. destruct (Z.ltb_spec i 0); [reflexivity | lia].
Qed.

Lemma char_at_some_range (s : string) (i : Z) (c : ascii) :
  Js.char_at s i = Some c -> 0 <= i < Js.len s.
Proof.
  unfold Js.char_at, Js.len. destruct (Z.ltb_spec i 0) as [Hneg|Hpos]; [discriminate|].
  intros Hget. split; [assumption|].
  destruct (Nat.lt_ge_cases (Z.to_nat i) (String.length s)) as [Hlt|Hge]; [lia|].
  assert (String.get (Z.to_nat i) s = None) as E.
  { clear Hget. revert Hge. generalize (Z.to_nat i). clear.
    induction s as [|a s IH]; intros n Hn; destruct n; simpl in *;
      try reflexivity; try lia.
    apply IH. lia. }
  congruence.
Qed.

Lemma char_is_true (o : option ascii) (c : ascii) :
  Js.char_is o c = true <-> o = Some c.
Proof.
  destruct o as [a|]; simpl; [|split; discriminate].
  destruct (Ascii.eqb_spec a c); split; congruence.
Qed.

(** The inner loop stops on the character before the run of backslashes. *)
Lemma skip_escapes_count (s : string) (n : nat) :
  skip_escapes s (Z.of_nat n - 1)
  = Z.of_nat n - 1 - Z.of_nat (backslashes_before s n).
Proof.
  induction n as [|k IH].
  - rewrite skip_escapes_step, char_at_negative by lia. reflexivity.
  - replace (Z.of_nat (S k) - 1) with (Z.of_nat k) by lia.
    rewrite skip_escapes_step, char_at_of_nat. cbn [backslashes_before].
    destruct (Js.char_is (String.get k s) "\"); [rewrite IH|]; lia.
Qed.

Lemma parity_test (m : Z) (b : nat) :
  (Z.rem (m - (m - 1 - Z.of_nat b)) 2 =? 1) = Nat.even b.
Proof.
  replace (m - (m - 1 - Z.of_nat b)) with (Z.of_nat b + 1) by lia.
  rewrite Z.rem_mod_nonneg by lia.
  destruct (Nat.Even_or_Odd b) as [[k Hk]|[k Hk]].
  - assert (Nat.even b = true) as -> by (apply Nat.even_spec; exists k; exact Hk).
    subst b. apply Z.eqb_eq.
    replace (Z.of_nat (2 * k) + 1) with (1 + Z.of_nat k * 2) by lia.
    rewrite Z_mod_plus_full. reflexivity.
  - assert (Nat.even b = false) as ->.
    { rewrite <- Nat.negb_odd.
      assert (Nat.odd b = true) as -> by (apply Nat.odd_spec; exists k; exact Hk).
      reflexivity. }
    subst b. apply Z.eqb_neq.
    replace (Z.of_nat (2 * k + 1) + 1) with (0 + (Z.of_nat k + 1) * 2) by lia.
    rewrite Z_mod_plus_full. discriminate.
Qed.

(** The test of the search loop accepts a candidate exactly when the
    number of backslashes before it is even. *)
Lemma candidate_test (s : string) (m : Z) :
  0 <= m ->
  (Z.rem (m - skip_escapes s (m - 1)) 2 =? 1)
  = Nat.even (backslashes_before s (Z.to_nat m)).
Proof.
  intros Hm.
  replace (m - 1) with (Z.of_nat (Z.to_nat m) - 1) by lia.
  rewrite skip_escapes_count.
  replace m with (Z.of_nat (Z.to_nat m)) at 1 by lia.
  apply parity_test.
Qed.

Lemma indexOf_dollar_spec (s : string) (m : Z) :
  let r := Js.indexOf s "$" m in
  (r = -1 /\ forall j, m <= j -> Js.char_at s j <> Some "$"%char)
  \/ (m <= r /\ 0 <= r /\ Js.char_at s r = Some "$"%char
      /\ forall j, m <= j < r -> Js.char_at s j <> Some "$"%char).
Proof.
  cbn zeta. unfold Js.indexOf.
  destruct (indexOf_from_dollar s (Z.to_nat m) 0 ltac:(lia)) as [[E H]|(B & G & H)].
  - left. split; [exact E|]. intros j Hj Hc.
    pose proof (char_at_some_range _ _ _ Hc) as Hr.
    replace j with (Z.of_nat (Z.to_nat j)) in Hc by lia.
    rewrite char_at_of_nat in Hc. apply (H (Z.to_nat j)); [lia | exact Hc].
  - right. set (r := Js.indexOf_from "$" s (Z.to_nat m) 0) in *.
    rewrite Z.sub_0_r in G.
    split; [lia|]. split; [lia|]. split.
    + replace r with (Z.of_nat (Z.to_nat r)) by lia. now rewrite char_at_of_nat.
    + intros j Hj Hc. pose proof (char_at_some_range _ _ _ Hc) as Hr.
      replace j with (Z.of_nat (Z.to_nat j)) in Hc by lia.
      rewrite char_at_of_nat in Hc. apply (H (Z.to_nat j)); [lia | lia | exact Hc].
Qed.

Lemma not_even_odd (n : nat) : Nat.even n = false -> Nat.odd n = true.
Proof. intros H. rewrite <- Nat.negb_even, H. reflexivity. Qed.

(** What the search loop returns: the first unescaped ["$"] at or after
    the start position, or [-1] when every ["$"] from there on is escaped. *)
Lemma find_closing_spec (s : string) (start : Z) :
  let m := find_closing s start in
  (m = -1 /\ forall j, start <= j -> Js.char_at s j = Some "$"%char -> escaped_dollar s j)
  \/ (m <> -1 /\ first_unescaped s start m).
Proof.
  funelim (find_closing s start); cbn zeta.
  - (* indexOf gives -1 *)
    clear Heqcall. pose proof (proj1 (Z.eqb_eq _ _) e0) as E0.
    destruct (indexOf_dollar_spec s match_) as [[_ Hnone]|(_ & Hr & _)]; [|lia].
    left. split; [exact E0|]. intros j Hj Hc. exfalso. exact (Hnone j Hj Hc).
  - (* candidate accepted *)
    clear Heqcall. pose proof (proj1 (Z.eqb_neq _ _) e0) as E0.
    destruct (indexOf_dollar_spec s match_) as [[E _]|(Hm & Hr & Hc & Hfirst)];
      [contradiction|].
    pose proof e1 as E1. rewrite candidate_test in E1 by exact Hr.
    right. split; [exact E0|]. split; [exact Hm|]. split; [split; assumption|].
    intros j Hj Hcj. exfalso. exact (Hfirst j Hj Hcj).
  - (* candidate escaped: search again after it *)
    clear Heqcall. pose proof (proj1 (Z.eqb_neq _ _) e0) as E0.
    destruct (indexOf_dollar_spec s match_) as [[E _]|(Hm & Hr & Hc & Hfirst)];
      [contradiction|].
    pose proof e1 as E1. rewrite candidate_test in E1 by exact Hr.
    set (found := Js.indexOf s "$" match_) in *.
    assert (escaped_dollar s found) as Hesc
      by (split; [exact Hc | apply not_even_odd; exact E1]).
    assert (forall j, match_ <= j < found + 1 ->
                      Js.char_at s j = Some "$"%char -> escaped_dollar s j) as Hbefore.
    { intros j Hj Hcj. destruct (Z.eq_dec j found) as [->|Hne]; [exact Hesc|].
      exfalso. apply (Hfirst j); [lia | exact Hcj]. }
    cbn zeta in H. destruct H as [[E Hall]|(Hne & Hge & Hun & Hskip)].
    + left. split; [exact E|]. intros j Hj Hcj.
      destruct (Z_lt_le_dec j (found + 1)); [apply Hbefore | apply Hall]; auto; lia.
    + right. split; [exact Hne|]. split; [lia|]. split; [exact Hun|].
      intros j Hj Hcj.
      destruct (Z_lt_le_dec j (found + 1)); [apply Hbefore | apply Hskip]; auto; lia.
Qed.

Lemma first_unescaped_unique (s : string) (start m m' : Z) :
  first_unescaped s start m -> first_unescaped s start m' -> m = m'.
Proof.
  intros (Hge & [Hc He] & Hskip) (Hge' & [Hc' He'] & Hskip').
  destruct (Z.lt_trichotomy m m') as [Hlt|[Heq|Hgt]]; [|exact Heq|]; exfalso.
  - destruct (Hskip' m ltac:(lia) Hc) as [_ Ho].
    rewrite <- Nat.negb_even, He in Ho. discriminate.
  - destruct (Hskip m' ltac:(lia) Hc') as [_ Ho].
    rewrite <- Nat.negb_even, He' in Ho. discriminate.
Qed.

Lemma find_closing_first_unescaped (s : string) (start m : Z) :
  first_unescaped s start m -> find_closing s start = m.
Proof.
  intros Hm. destruct (find_closing_spec s start) as [[_ Hall]|[_ Hfirst]].
  - exfalso. destruct Hm as (Hge & [Hc He] & _).
    destruct (Hall m Hge Hc) as [_ Ho].
    rewrite <- Nat.negb_even, He in Ho. discriminate.
  - exact (first_unescaped_unique _ _ _ _ Hfirst Hm).
Qed.

Lemma slice_in_range (s : string) (a b : Z) :
  0 <= a <= b -> b <= Js.len s ->
  Js.slice s a b = substring (Z.to_nat a) (Z.to_nat (b - a)) s.
Proof.
  intros Hab Hb. unfold Js.slice, Js.rel_index.
  destruct (Z.ltb_spec a 0); [lia|]. destruct (Z.ltb_spec b 0); [lia|].
  rewrite !Z.min_l by lia. reflexivity.
Qed.

(** The inline rule handles every ["$"]: whatever follows, the call
    returns [true]. *)
Lemma math_inline_handles_dollar (state : StateInline) (silent : bool) :
  Js.char_at (src state) (pos state) = Some "$"%char ->
  fst (math_inline state silent) = true.
Proof.
  intros Hdollar. apply char_is_true in Hdollar.
  unfold math_inline. rewrite Hdollar. cbn [negb].
  destruct (can_open _); cbn [negb]; [|reflexivity].
  cbn zeta.
  destruct (find_closing (src state) (pos state + 1) =? -1); [reflexivity|].
  destruct (find_closing (src state) (pos state + 1) - (pos state + 1) =? 0);
    [reflexivity|].
  destruct (can_close _); reflexivity.
Qed.

(** ** C1: the closing candidate and the emitted inline token *)

(** The state after [push] and the assignment of the cursor. *)
Lemma push_inline_result (state : StateInline) (token : Token) (q : Z) :
  set_pos (push_inline state token) q
  = mkInline (src state) q (posMax state) ""
      (tokens state ++ flushed_pending (pending state) ++ [token]).
Proof.
  destruct state as [s p mx pend toks].
  unfold push_inline, pushPending, set_pos, flushed_pending.
  cbn [src pos posMax pending tokens].
  destruct pend as [|c r]; cbn; [reflexivity|].
  now rewrite <- app_assoc.
Qed.

(** C1.  Let the cursor hold a ["$"] that classifies as an opener, and let
    [m] be the first ["$"] after it that is preceded by an even number of
    backslashes (every earlier ["$"] being preceded by an odd number).
    Then [m] is the candidate the forward search accepts; and when [m] is
    not adjacent to the opener and classifies as a closer, the call in
    commit mode succeeds and emits exactly one inline math token, of type
    [math_inline], tag [math] and markup ["$"], whose content is the text
    strictly between opener and candidate; the host's [push] puts it after
    the text that was pending, flushed as a [text] token, and after the
    earlier tokens; the cursor is set to [m + 1]. *)
Theorem math_inline_closing_candidate (state : StateInline) (m : Z) :
  Js.char_at (src state) (pos state) = Some "$"%char ->
  can_open (isValidDelimiter state (pos state)) = true ->
  first_unescaped (src state) (pos state + 1) m ->
  find_closing (src state) (pos state + 1) = m
  /\ (m <> pos state + 1 ->
      can_close (isValidDelimiter state m) = true ->
      math_inline state false
      = (true,
         mkInline (src state) (m + 1) (posMax state) ""
           (tokens state
            ++ flushed_pending (pending state)
            ++ [mkToken "math_inline" "math" 0 "$"
                  (substring (Z.to_nat (pos state + 1))
                             (Z.to_nat (m - (pos state + 1))) (src state))
                  false None]))).
Proof.
  intros Hdollar Hopen Hfirst.
  pose proof (find_closing_first_unescaped _ _ _ Hfirst) as Hfind.
  split; [exact Hfind|]. intros Hadj Hclose.
  destruct Hfirst as (Hge & [Hc _] & _).
  pose proof (char_at_some_range _ _ _ Hc) as Hm.
  pose proof (char_at_some_range _ _ _ Hdollar) as Hp.
  unfold math_inline.
  apply char_is_true in Hdollar. rewrite Hdollar, Hopen. cbn [negb].
  cbn zeta. rewrite Hfind.
  destruct (Z.eqb_spec m (-1)); [lia|].
  destruct (Z.eqb_spec (m - (pos state + 1)) 0); [lia|].
  rewrite Hclose. cbn [negb].
  rewrite push_inline_result, slice_in_range by lia. reflexivity.
Qed.

(** On ["$a\$b$"] with the text ["p"] pending, the escaped ["$"] at index
    3 is passed, the pending text is flushed and the token content is
    [a\$b]. *)
Lemma math_inline_closing_candidate_witness :
  find_closing "$a\$b$" 1 = 5
  /\ math_inline (mkInline "$a\$b$" 0 6 "p" []) false
     = (true,
        mkInline "$a\$b$" 6 6 ""
          [mkToken "text" "" 0 "" "p" false None;
           mkToken "math_inline" "math" 0 "$" "a\$b" false None]).
Proof.
  assert (first_unescaped "$a\$b$" 1 5) as Hfirst.
  { split; [lia|]. split; [split; reflexivity|].
    intros j Hj Hc.
    assert (j = 1 \/ j = 2 \/ j = 3 \/ j = 4) as [ -> | [ -> | [ -> | -> ] ] ] by lia;
      try discriminate Hc.
    split; reflexivity. }
  destruct (math_inline_closing_candidate (mkInline "$a\$b$" 0 6 "p" []) 5
              eq_refl eq_refl Hfirst) as [Hfind Hemit].
  split; [exact Hfind|].
  apply Hemit; [discriminate | reflexivity].
Defined.

(** ** C2: the delimiter classifier *)

Lemma char_at_beyond (s : string) (i : Z) : Js.len s <= i -> Js.char_at s i = None.
Proof.
  intros Hi. destruct (Js.char_at s i) as [c|] eqn:E; [|reflexivity].
  apply char_at_some_range in E. lia.
Qed.

Lemma code_eq_char (s : string) (i : Z) (c : ascii) :
  Js.code_eq (Js.charCodeAt s i) (Z.of_nat (nat_of_ascii c)) = true
  <-> Js.char_at s i = Some c.
Proof.
  unfold Js.charCodeAt. destruct (Js.char_at s i) as [a|]; simpl.
  - rewrite Z.eqb_eq. split.
    + intros H. apply Nat2Z.inj in H.
      rewrite <- (ascii_nat_embedding a), <- (ascii_nat_embedding c), H. reflexivity.
    + intros [= ->]. reflexivity.
  - split; discriminate.
Qed.

Lemma code_space_or_tab (s : string) (i : Z) :
  Js.code_eq (Js.charCodeAt s i) 0x20 || Js.code_eq (Js.charCodeAt s i) 0x09 = true
  <-> space_or_tab (Js.char_at s i).
Proof.
  rewrite orb_true_iff. unfold space_or_tab.
  rewrite <- (code_eq_char s i " "), <- (code_eq_char s i "009"). reflexivity.
Qed.

Lemma code_digit (s : string) (i : Z) :
  Js.code_ge (Js.charCodeAt s i) 0x30 && Js.code_le (Js.charCodeAt s i) 0x39 = true
  <-> ascii_digit (Js.char_at s i).
Proof.
  rewrite andb_true_iff. unfold ascii_digit, Js.charCodeAt.
  destruct (Js.char_at s i) as [a|]; simpl.
  - rewrite !Z.leb_le. split.
    + intros [H1 H2]. exists a. split; [reflexivity | lia].
    + intros (c & [= <-] & H). lia.
  - split; [intros [H _]; discriminate | intros (c & H & _); discriminate].
Qed.

Lemma space_or_tab_none : ~ space_or_tab None.
Proof. intros [H|H]; discriminate. Qed.

Lemma ascii_digit_none : ~ ascii_digit None.
Proof. intros (c & H & _). discriminate. Qed.

(** The classifier for every scan limit: the character after [p] is
    looked at only when [p + 1 <= posMax]. *)
Lemma isValidDelimiter_flags_limit (state : StateInline) (p : Z) :
  (can_close (isValidDelimiter state p) = false
   <-> space_or_tab (Js.char_at (src state) (p - 1))
       \/ ascii_digit (next_within_limit state p))
  /\ (can_open (isValidDelimiter state p) = false
      <-> space_or_tab (next_within_limit state p)).
Proof.
  unfold isValidDelimiter, next_within_limit. cbn [can_close can_open].
  assert ((if p >? 0 then Js.charCodeAt (src state) (p - 1) else Some (-1))
          = Js.charCodeAt (src state) (p - 1) \/
          ((if p >? 0 then Js.charCodeAt (src state) (p - 1) else Some (-1))
           = Some (-1) /\ Js.char_at (src state) (p - 1) = None)) as Hprev.
  { destruct (Z.gtb_spec p 0); [left; reflexivity|].
    right. split; [reflexivity|]. apply char_at_negative. lia. }
  pose proof (code_space_or_tab (src state) (p - 1)) as Sp.
  pose proof (code_space_or_tab (src state) (p + 1)) as Sn.
  pose proof (code_digit (src state) (p + 1)) as Dn.
  pose proof space_or_tab_none. pose proof ascii_digit_none.
  destruct Hprev as [-> | [-> Ep]]; destruct (p + 1 <=? posMax state);
    try rewrite Ep in *; cbn [Js.code_eq Js.code_ge Js.code_le];
    repeat match goal with
           | |- context [if ?b then false else true] =>
               let E := fresh "E" in destruct b eqn:E
           end;
    cbn in *; rewrite ?orb_true_iff, ?orb_false_iff in *;
    intuition (try discriminate; try congruence).
Qed.

(** C2, as the code has it.  For every state and position [p], the
    classifier clears [can_close] exactly when the character before [p] is
    a space or a tab or the character after [p] is a digit [0]-[9], and
    clears [can_open] exactly when the character after [p] is a space or a
    tab, where the character after [p] is read only when [p + 1] does not
    exceed the state's scan limit [posMax] and counts as none otherwise, as
    does a neighbour outside the buffer.  When the scan limit is not below
    the length of the buffer, the character after [p] is the one in the
    buffer.  The classifier is a function of the state and returns no
    state: it has no effect. *)
Theorem isValidDelimiter_classifies (state : StateInline) (p : Z) :
  (can_close (isValidDelimiter state p) = false
   <-> space_or_tab (Js.char_at (src state) (p - 1))
       \/ ascii_digit (next_within_limit state p))
  /\ (can_open (isValidDelimiter state p) = false
      <-> space_or_tab (next_within_limit state p))
  /\ (p + 1 <= posMax state \/ Js.len (src state) <= posMax state ->
      next_within_limit state p = Js.char_at (src state) (p + 1))
  /\ (posMax state < p + 1 -> next_within_limit state p = None).
Proof.
  destruct (isValidDelimiter_flags_limit state p) as [Hc Ho].
  split; [exact Hc|]. split; [exact Ho|]. unfold next_within_limit.
  destruct (Z.leb_spec (p + 1) (posMax state)); split; try reflexivity; try lia.
  intros [H'|H']; [lia|]. symmetry. apply char_at_beyond. lia.
Qed.

(** C2 as stated fails: in ["[$x](u)$5"] scanned as a link label, with
    the cursor at 1 and the scan limit 3, the ["$"] at index 7 is followed
    by the digit ["5"] and yet may close. *)
Lemma isValidDelimiter_beyond_limit :
  Js.char_at "[$x](u)$5" 7 = Some "$"%char
  /\ Js.char_at "[$x](u)$5" (7 + 1) = Some "5"%char
  /\ ascii_digit (Js.char_at "[$x](u)$5" (7 + 1))
  /\ can_close (isValidDelimiter (mkInline "[$x](u)$5" 1 3 "" []) 7) = true.
Proof.
  split; [reflexivity|]. split; [reflexivity|]. split; [|reflexivity].
  exists "5"%char. split; [reflexivity | cbn; lia].
Qed.

(** ** C3: what a probe changes *)

(** A probe returns the boolean of the commit call and moves the cursor
    where the commit call moves it; nothing else changes. *)
Lemma math_inline_silent (state : StateInline) :
  math_inline state true
  = (fst (math_inline state false),
     set_pos state (pos (snd (math_inline state false)))).
Proof.
  destruct state as [s p mx pend toks].
  unfold math_inline. cbn [src pos posMax pending tokens].
  destruct (Js.char_is (Js.char_at s p) "$"); cbn [negb]; [|reflexivity].
  destruct (can_open _); cbn [negb]; [|reflexivity].
  cbn zeta.
  destruct (find_closing s (p + 1) =? -1); [reflexivity|].
  destruct (find_closing s (p + 1) - (p + 1) =? 0); [reflexivity|].
  destruct (can_close _); reflexivity.
Qed.

(** C3, as the code has it.  A call in probe (silent) mode leaves the
    pending text, the token list, the buffer and the scan limit as they
    were.  It moves the cursor, to the very position the call in commit
    mode moves it to, and returns the same boolean as that call.  Probing
    again from the same position gives the same result. *)
Theorem math_inline_probe (state : StateInline) :
  pending (snd (math_inline state true)) = pending state
  /\ tokens (snd (math_inline state true)) = tokens state
  /\ src (snd (math_inline state true)) = src state
  /\ posMax (snd (math_inline state true)) = posMax state
  /\ pos (snd (math_inline state true)) = pos (snd (math_inline state false))
  /\ fst (math_inline state true) = fst (math_inline state false)
  /\ math_inline (set_pos (snd (math_inline state true)) (pos state)) true
     = math_inline state true.
Proof.
  rewrite (math_inline_silent state). cbn [fst snd].
  repeat (split; [reflexivity|]).
  replace (set_pos (set_pos state (pos (snd (math_inline state false)))) (pos state))
    with state by (destruct state; reflexivity).
  apply math_inline_silent.
Qed.

(** C3 as stated fails: on ["$x$"] a probe at the opener returns [true]
    with the cursor moved from 0 to 3. *)
Lemma math_inline_probe_moves_cursor :
  math_inline (inline_state "$x$" 0) true = (true, mkInline "$x$" 3 3 "" [])
  /\ pos (inline_state "$x$" 0) = 0.
Proof. split; reflexivity. Qed.

(** ** C10: the backward loop *)

Lemma backslashes_before_le (s : string) (n : nat) :
  (backslashes_before s n <= n)%nat.
Proof.
  induction n as [|k IH]; simpl; [lia|].
  destruct (Js.char_is (String.get k s) "\"); lia.
Qed.

Lemma backslashes_before_run (s : string) (n j : nat) :
  (n - backslashes_before s n <= j < n)%nat -> String.get j s = Some "\"%char.
Proof.
  induction n as [|k IH]; simpl; [lia|].
  destruct (Js.char_is (String.get k s) "\") eqn:E; [|lia].
  intros Hj. destruct (Nat.eq_dec j k) as [->|Hne].
  - apply char_is_true. exact E.
  - apply IH. pose proof (backslashes_before_le s k). lia.
Qed.

Lemma backslashes_before_stop (s : string) (n : nat) :
  (backslashes_before s n < n)%nat ->
  String.get (n - backslashes_before s n - 1) s <> Some "\"%char.
Proof.
  induction n as [|k IH]; cbn [backslashes_before]; [lia|].
  destruct (Js.char_is (String.get k s) "\") eqn:E.
  - intros Hlt.
    replace (S k - S (backslashes_before s k) - 1)%nat
      with (k - backslashes_before s k - 1)%nat by lia.
    apply IH. lia.
  - intros _. replace (S k - 0 - 1)%nat with k by lia. intros Hc.
    apply char_is_true in Hc. congruence.
Qed.

Lemma backslashes_before_all (s : string) (n : nat) :
  (forall j, (j < n)%nat -> String.get j s = Some "\"%char) ->
  backslashes_before s n = n.
Proof.
  induction n as [|k IH]; intros Hall; simpl; [reflexivity|].
  rewrite (proj2 (char_is_true _ _) (Hall k ltac:(lia))).
  rewrite IH; [reflexivity|]. intros j Hj. apply Hall. lia.
Qed.

(** C10.  For every buffer and every candidate index [m], the backward
    loop started at [m - 1] returns an index [p] with [-1 <= p < m]; the
    characters strictly between [p] and [m] are the run of backslashes
    before the candidate and the character at [p], if any, is not a
    backslash.  When the candidate is preceded by backslashes only, back to
    the start of the buffer, the loop returns [-1] (the read at [-1] gives
    no character) and the parity test is the parity of the full run of
    [m] backslashes.  The loop is a total function: the call returns. *)
Theorem skip_escapes_in_bounds (s : string) (m : Z) :
  0 <= m ->
  -1 <= skip_escapes s (m - 1) < m
  /\ Js.char_is (Js.char_at s (skip_escapes s (m - 1))) "\" = false
  /\ (forall j, skip_escapes s (m - 1) < j < m -> Js.char_at s j = Some "\"%char)
  /\ ((forall j, 0 <= j < m -> Js.char_at s j = Some "\"%char) ->
      skip_escapes s (m - 1) = -1
      /\ Js.char_at s (-1) = None
      /\ (Z.rem (m - skip_escapes s (m - 1)) 2 =? 1) = Nat.even (Z.to_nat m)).
Proof.
  intros Hm.
  pose proof (candidate_test s m Hm) as Htest.
  replace (m - 1) with (Z.of_nat (Z.to_nat m) - 1) in * by lia.
  rewrite skip_escapes_count in *.
  set (n := Z.to_nat m) in *.
  pose proof (backslashes_before_le s n) as Hle.
  split; [lia|]. split; [|split].
  - destruct (Nat.eq_dec (backslashes_before s n) n) as [E|E].
    + rewrite E. rewrite char_at_negative by lia. reflexivity.
    + replace (Z.of_nat n - 1 - Z.of_nat (backslashes_before s n))
        with (Z.of_nat (n - backslashes_before s n - 1)) by lia.
      rewrite char_at_of_nat.
      destruct (Js.char_is _ _) eqn:Ec; [|reflexivity].
      apply char_is_true in Ec. exfalso.
      apply (backslashes_before_stop s n); [lia | exact Ec].
  - intros j Hj. replace j with (Z.of_nat (Z.to_nat j)) by lia.
    rewrite char_at_of_nat. apply (backslashes_before_run s n). lia.
  - intros Hall.
    assert (backslashes_before s n = n) as E.
    { apply backslashes_before_all. intros j Hj.
      rewrite <- char_at_of_nat. apply Hall. lia. }
    rewrite E in *. split; [lia|]. split; [reflexivity|]. exact Htest.
Qed.

(** Two backslashes and a ["$"]: the loop started at index 1 returns
    [-1], the test accepts the candidate and the search returns index 2. *)
Lemma skip_escapes_in_bounds_witness :
  skip_escapes "\\$" (2 - 1) = -1
  /\ (Z.rem (2 - skip_escapes "\\$" (2 - 1)) 2 =? 1) = true
  /\ find_closing "\\$" 0 = 2.
Proof.
  destruct (skip_escapes_in_bounds "\\$" 2 ltac:(lia)) as (_ & _ & _ & Hall).
  destruct Hall as (E & _ & Hp).
  - intros j Hj. assert (j = 0 \/ j = 1) as [ -> | -> ] by lia; reflexivity.
  - split; [exact E|]. split; [exact Hp | reflexivity].
Defined.

(** ** Block scanning: where the line loop stops *)

(** The loop left by [next >= end]: [next] has reached [end_]. *)
Lemma scan_lines_exhausted (state : StateBlock) (end_ next : Z) :
  (forall n, next < n < end_ -> line_passes state n) ->
  scan_lines state end_ next = (Z.max (next + 1) end_, None).
Proof.
  remember (Z.to_nat (end_ - next)) as k eqn:Hk.
  revert next Hk. induction k as [|k IH]; intros next Hk Hpass.
  - rewrite scan_lines_step. destruct (Z.geb_spec (next + 1) end_); [|lia].
    rewrite Z.max_l by lia. reflexivity.
  - rewrite scan_lines_step. destruct (Z.geb_spec (next + 1) end_) as [Hge|Hlt].
    + rewrite Z.max_l by lia. reflexivity.
    + cbn zeta. destruct (Hpass (next + 1) ltac:(lia)) as [E1 E2].
      cbn zeta in E1, E2. rewrite E1, E2.
      rewrite (IH (next + 1)); [|lia|].
      * f_equal. lia.
      * intros n Hn. apply Hpass. lia.
Qed.

(** The loop left by the indentation test: [next] is the line that
    failed it. *)
Lemma scan_lines_indent_stop (state : StateBlock) (end_ next n : Z) :
  next < n < end_ ->
  (forall i, next < i < n -> line_passes state i) ->
  line_under_indented state n ->
  scan_lines state end_ next = (n, None).
Proof.
  remember (Z.to_nat (n - next)) as k eqn:Hk.
  revert next Hk. induction k as [|k IH]; intros next Hk Hn Hpass Hstop; [lia|].
  rewrite scan_lines_step. destruct (Z.geb_spec (next + 1) end_); [lia|].
  cbn zeta. destruct (Z.eq_dec (next + 1) n) as [->|Hne].
  - destruct Hstop as [H1 H2].
    rewrite (proj2 (Z.ltb_lt _ _) H1), (proj2 (Z.ltb_lt _ _) H2). reflexivity.
  - destruct (Hpass (next + 1) ltac:(lia)) as [E1 E2].
    cbn zeta in E1, E2. rewrite E1, E2.
    apply IH; [lia | lia | | exact Hstop].
    intros i Hi. apply Hpass. lia.
Qed.

Lemma append_empty_r (s : string) : (s ++ "")%string = s.
Proof. induction s as [|c s IH]; simpl; [reflexivity | now rewrite IH]. Qed.

Lemma math_block_open (state : StateBlock) (start end_ : Z) :
  opens_block state start ->
  math_block state start end_ false
  = let '(next, lastLine) := scan_lines state end_ start in
    (true,
     set_line_push state (next + 1)
       (block_token
          (first_line_text state start
           ++ getLines state (start + 1) next (tShift state start) true
           ++ match lastLine with
              | Some l => if Js.truthy l && Js.truthy (Js.trim l) then l else ""
              | None => ""
              end)%string
          (start, next + 1))).
Proof.
  intros (Hlen & Hmark & Hsingle). cbn zeta in Hlen, Hmark, Hsingle.
  unfold math_block, first_line_text. cbn zeta.
  destruct (Z.gtb_spec (bMarks state start + tShift state start + 2)
              (eMarks state start)); [lia|].
  rewrite Hmark. cbn [String.eqb negb]. rewrite Hsingle.
  destruct (scan_lines state end_ start) as [next lastLine]. reflexivity.
Qed.

(** The block rule accepts every line that starts with the marker, in
    both modes: no later line can make it fail. *)
Lemma math_block_accepts (state : StateBlock) (start end_ : Z) (silent : bool) :
  bMarks state start + tShift state start + 2 <= eMarks state start ->
  Js.slice (bsrc state) (bMarks state start + tShift state start)
           (bMarks state start + tShift state start + 2) = "$$" ->
  fst (math_block state start end_ silent) = true.
Proof.
  intros Hlen Hmark. unfold math_block. cbn zeta.
  destruct (Z.gtb_spec (bMarks state start + tShift state start + 2)
              (eMarks state start)); [lia|].
  rewrite Hmark. cbn [String.eqb negb].
  destruct silent; [reflexivity|].
  destruct (Js.slice_from _ _ =? "$$")%string; [reflexivity|].
  destruct (scan_lines state end_ start). reflexivity.
Qed.

(** What the block rule does when the line loop runs out of lines. *)
Lemma math_block_no_close (state : StateBlock) (start end_ : Z) :
  start < end_ ->
  opens_block state start ->
  (forall n, start < n < end_ -> line_passes state n) ->
  math_block state start end_ false
  = (true,
     set_line_push state (end_ + 1)
       (block_token
          (first_line_text state start
           ++ getLines state (start + 1) end_ (tShift state start) true)%string
          (start, end_ + 1))).
Proof.
  intros Hlt Hopen Hpass. rewrite (math_block_open _ _ _ Hopen).
  rewrite (scan_lines_exhausted _ _ _ Hpass), Z.max_r by lia.
  now rewrite append_empty_r.
Qed.

(** What the block rule does when line [n] fails the indentation test. *)
Lemma math_block_under_indented (state : StateBlock) (start end_ n : Z) :
  start < n < end_ ->
  opens_block state start ->
  (forall i, start < i < n -> line_passes state i) ->
  line_under_indented state n ->
  math_block state start end_ false
  = (true,
     set_line_push state (n + 1)
       (block_token
          (first_line_text state start
           ++ getLines state (start + 1) n (tShift state start) true)%string
          (start, n + 1))).
Proof.
  intros Hn Hopen Hpass Hstop. rewrite (math_block_open _ _ _ Hopen).
  rewrite (scan_lines_indent_stop _ _ _ _ Hn Hpass Hstop).
  now rewrite append_empty_r.
Qed.

(** ** C4: a line that fails the indentation test *)

(** C4, what the code does.  In the list item ["- $$"], ["  a"] followed
    by the line ["b"] outside the item, line 2 is non-empty and less
    indented than the item, and the loop stops at it without a close.  The
    rule then sets the line pointer to 3, after that line, and the token's
    line range is (0, 3), which contains line 2; the content is lines 1 to
    2 (exclusive) only. *)
Theorem math_block_indent_stop_consumes_line (gl : Z -> Z -> Z -> bool -> string) :
  line_under_indented (list_item_state gl) 2
  /\ scan_lines (list_item_state gl) 3 0 = (2, None)
  /\ math_block (list_item_state gl) 0 3 false
     = (true,
        set_line_push (list_item_state gl) 3
          (block_token (gl 1 2 2 true) (0, 3)))
  /\ line (snd (math_block (list_item_state gl) 0 3 false)) = 3.
Proof.
  assert (line_under_indented (list_item_state gl) 2) as Hstop
    by (split; reflexivity).
  assert (forall i, 0 < i < 2 -> line_passes (list_item_state gl) i) as Hpass.
  { intros i Hi. assert (i = 1) as -> by lia. split; reflexivity. }
  assert (opens_block (list_item_state gl) 0) as Hopen.
  { split; [cbn; lia|]. split; reflexivity. }
  split; [exact Hstop|]. split.
  - apply (scan_lines_indent_stop _ 3 0 2); [lia | exact Hpass | exact Hstop].
  - rewrite (math_block_under_indented _ 0 3 2 ltac:(lia) Hopen Hpass Hstop).
    split; reflexivity.
Qed.

(** ** C5: a block with no closing marker *)

(** C5, what the code does.  On ["$$"], ["foo"] (lines 0 and 1, the
    container ends at line 2) the rule succeeds and emits one block token
    whose content is what the host's [getLines(1, 2, 0, true)] returns;
    the line pointer and the end of the token's line range are 3, one more
    than the end of the container. *)
Theorem math_block_unterminated (gl : Z -> Z -> Z -> bool -> string) :
  math_block (unterminated_state gl) 0 2 false
  = (true,
     set_line_push (unterminated_state gl) 3
       (block_token (gl 1 2 0 true) (0, 3)))
  /\ line (snd (math_block (unterminated_state gl) 0 2 false)) = 2 + 1.
Proof.
  assert (forall i, 0 < i < 2 -> line_passes (unterminated_state gl) i) as Hpass.
  { intros i Hi. assert (i = 1) as -> by lia. split; reflexivity. }
  assert (opens_block (unterminated_state gl) 0) as Hopen.
  { split; [cbn; lia|]. split; reflexivity. }
  rewrite (math_block_no_close _ 0 2 ltac:(lia) Hopen Hpass).
  split; reflexivity.
Qed.

(** ** C6: markup of a rendered block *)

(** C6, as the code has it.  When the engine renders the content of the
    block token, the block rule installed by [plugin] returns the opening
    wrapper tag with class [katex-block], a newline, the engine output, a
    newline, the closing wrapper tag and a newline; the wrapper tag is
    ["div"] when [blockWrapper] is not configured. *)
Theorem renderBlock_success (Env : Type)
  (engine : string -> Options Env -> bool -> EngineResult)
  (options : Options Env) (tokens : list Token) (idx : nat) (env : Env)
  (token : Token) (rendered : string) :
  nth_error tokens idx = Some token ->
  engine (content token)
         (engine_options (default_options options)
                         (resolve_throwOnError options env)) true
  = Rendered rendered ->
  render_math_block (plugin engine options) tokens idx env
  = Return (block_markup (wrapper_tag options) "katex-block" rendered).
Proof.
  intros Htok Hengine.
  unfold plugin. cbn [render_math_block]. unfold renderBlock, token_content.
  rewrite Htok. cbn [bind].
  replace (resolve_throwOnError (default_options options) env)
    with (resolve_throwOnError options env) by reflexivity.
  rewrite Hengine.
  unfold block_markup, wrapper_tag, default_options. cbn [blockWrapper].
  destruct (blockWrapper options) as [[w|]|]; reflexivity.
Qed.

(** The block ["E=mc^2"] with the identity engine and no options. *)
Lemma renderBlock_success_witness :
  render_math_block (plugin identity_engine no_options)
    [block_token ("E=mc^2" ++ LF) (0, 3)] 0 tt
  = Return (block_markup "div" "katex-block" ("E=mc^2" ++ LF)).
Proof.
  exact (renderBlock_success unit identity_engine no_options
           [block_token ("E=mc^2" ++ LF) (0, 3)] 0 tt
           (block_token ("E=mc^2" ++ LF) (0, 3)) ("E=mc^2" ++ LF)
           eq_refl eq_refl).
Defined.

(** C6 as stated fails: with the identity engine and no options, the
    block ["E=mc^2"] renders with class [katex-block], which is not the
    markup with class [math-block]. *)
Lemma renderBlock_class_not_math_block :
  render_math_block (plugin identity_engine no_options)
    [block_token ("E=mc^2" ++ LF) (0, 3)] 0 tt
  = Return (block_markup "div" "katex-block" ("E=mc^2" ++ LF))
  /\ block_markup "div" "katex-block" ("E=mc^2" ++ LF)
     <> block_markup "div" "math-block" ("E=mc^2" ++ LF).
Proof. split; [reflexivity | discriminate]. Qed.

(** ** C7 and C9: the inline error policy *)

(** The inline rule on an engine failure, for every options object. *)
Lemma renderInline_failure (Env : Type)
  (engine : string -> Options Env -> bool -> EngineResult)
  (options : Options Env) (tokens : list Token) (idx : nat) (env : Env)
  (token : Token) (error : KatexError) :
  nth_error tokens idx = Some token ->
  engine (content token)
         (engine_options options (resolve_throwOnError options env)) false
  = Failed error ->
  renderInline engine options tokens idx env
  = if resolve_throwOnError options env
    then Throw (Raised (set_diagnostics_source error (content token)))
    else color <- escapeHtml_call (errorColor options) ;;
         Return (inline_fallback color (err_text error) (content token)).
Proof.
  intros Htok Hengine. unfold renderInline, token_content.
  rewrite Htok. cbn [bind]. rewrite Hengine. reflexivity.
Qed.

Lemma assign_source_lookup (d : list (string * string)) (maths : string) :
  In ("source", maths) (assign_source d maths).
Proof.
  induction d as [|[k v] d IH]; simpl; [left; reflexivity|].
  destruct (String.eqb_spec k "source") as [->|Hne]; [left; reflexivity|].
  right. exact IH.
Qed.

(** The part of the inline error policy that holds when an error colour
    is configured: the rule throws exactly when the resolved flag is true,
    the thrown error is the engine's with the content as its [source], and
    otherwise the fallback span is returned. *)
Lemma renderInline_policy_with_color (Env : Type)
  (engine : string -> Options Env -> bool -> EngineResult)
  (options : Options Env) (tokens : list Token) (idx : nat) (env : Env)
  (token : Token) (error : KatexError) (color : string) :
  nth_error tokens idx = Some token ->
  engine (content token)
         (engine_options options (resolve_throwOnError options env)) false
  = Failed error ->
  errorColor options = Some color ->
  (resolve_throwOnError options env = true ->
   renderInline engine options tokens idx env
   = Throw (Raised (set_diagnostics_source error (content token)))
   /\ In ("source", content token)
         (err_diagnostics (set_diagnostics_source error (content token))))
  /\ (resolve_throwOnError options env = false ->
      renderInline engine options tokens idx env
      = Return (inline_fallback (escapeHtml color) (err_text error) (content token))).
Proof.
  intros Htok Hengine Hcolor.
  rewrite (renderInline_failure _ _ _ _ _ _ _ _ Htok Hengine), Hcolor.
  split; intros ->.
  - split; [reflexivity | apply assign_source_lookup].
  - reflexivity.
Qed.

(** C7, the failing call.  With [throwOnError: false], no [errorColor]
    and an engine that raises, the inline rule installed by [plugin]
    throws a [TypeError] although the resolved flag is false; no fallback
    markup is returned. *)
Theorem renderInline_throws_without_color :
  resolve_throwOnError
    (mkOptions (Env := unit) None (ThrowFlag false) None []) tt = false
  /\ render_math_inline
       (plugin (failing_engine "bad") (mkOptions None (ThrowFlag false) None []))
       [inline_token "x"] 0 tt
     = Throw (TypeError "Cannot read properties of undefined (reading 'replace')").
Proof. split; reflexivity. Qed.

(** C9.  On an engine failure with the resolved flag false, the inline
    rule escapes the configured error colour and embeds the result in the
    style attribute of the fallback span; when no error colour is
    configured the escaping is applied to [undefined] and the rule throws
    a [TypeError] instead of returning fallback markup. *)
Theorem renderInline_fallback_escapes_color (Env : Type)
  (engine : string -> Options Env -> bool -> EngineResult)
  (options : Options Env) (tokens : list Token) (idx : nat) (env : Env)
  (token : Token) (error : KatexError) :
  nth_error tokens idx = Some token ->
  engine (content token)
         (engine_options options (resolve_throwOnError options env)) false
  = Failed error ->
  resolve_throwOnError options env = false ->
  renderInline engine options tokens idx env
  = match errorColor options with
    | Some color =>
        Return (inline_fallback (escapeHtml color) (err_text error) (content token))
    | None =>
        Throw (TypeError "Cannot read properties of undefined (reading 'replace')")
    end.
Proof.
  intros Htok Hengine Hflag.
  rewrite (renderInline_failure _ _ _ _ _ _ _ _ Htok Hengine), Hflag.
  destruct (errorColor options); reflexivity.
Qed.

(** An engine that raises ["bad"], the flag false: with the colour
    ["#c00<"] the style holds the escaped colour; with no colour the rule
    throws. *)
Lemma renderInline_fallback_escapes_color_witness :
  renderInline (failing_engine "bad")
    (mkOptions (Env := unit) None (ThrowFlag false) (Some "#c00<") [])
    [inline_token "x"] 0 tt
  = Return (inline_fallback "#c00&lt;" "bad" "x")
  /\ renderInline (failing_engine "bad")
       (mkOptions (Env := unit) None (ThrowFlag false) None [])
       [inline_token "x"] 0 tt
     = Throw (TypeError "Cannot read properties of undefined (reading 'replace')").
Proof.
  split.
  - exact (renderInline_fallback_escapes_color unit (failing_engine "bad")
             (mkOptions None (ThrowFlag false) (Some "#c00<") [])
             [inline_token "x"] 0 tt (inline_token "x") (mkError "bad" [])
             eq_refl eq_refl eq_refl).
  - exact (renderInline_fallback_escapes_color unit (failing_engine "bad")
             (mkOptions None (ThrowFlag false) None [])
             [inline_token "x"] 0 tt (inline_token "x") (mkError "bad" [])
             eq_refl eq_refl eq_refl).
Defined.

(** ** C8: the legacy variant against the primary implementation *)









(** ** Further properties of the inline rule *)

Lemma substring_zero (n : nat) (s : string) : substring n 0 s = "".
Proof.
  revert n. induction s as [|c s IH]; intros [|n]; simpl; auto.
Qed.

Lemma substring_cons (s : string) (n m : nat) (c : ascii) :
  String.get n s = Some c ->
  substring n (S m) s = String c (substring (S n) m s).
Proof.
  revert n. induction s as [|a s IH]; intros n Hget.
  - destruct n; discriminate.
  - destruct n as [|n]; simpl in *.
    + injection Hget as ->. reflexivity.
    + apply IH. exact Hget.
Qed.

Lemma get_some_lt (s : string) (n : nat) (c : ascii) :
  String.get n s = Some c -> (n < String.length s)%nat.
Proof.
  revert n. induction s as [|a s IH]; intros [|n] H; simpl in *;
    try discriminate; [lia|].
  apply IH in H. lia.
Qed.

Lemma get_lt_some (s : string) (n : nat) :
  (n < String.length s)%nat -> exists c, String.get n s = Some c.
Proof.
  revert n. induction s as [|a s IH]; intros [|n] H; simpl in *; try lia.
  - exists a. reflexivity.
  - apply IH. lia.
Qed.

Lemma substring_snoc (s : string) (n m : nat) (c : ascii) :
  String.get (n + m) s = Some c ->
  substring n (S m) s = (substring n m s ++ String c "")%string.
Proof.
  revert n. induction m as [|m IH]; intros n Hget.
  - rewrite Nat.add_0_r in Hget.
    rewrite (substring_cons _ _ _ _ Hget), !substring_zero. reflexivity.
  - destruct (get_lt_some s n) as [a Ha].
    { apply get_some_lt in Hget. lia. }
    rewrite (substring_cons _ _ (S m) _ Ha), (substring_cons _ _ m _ Ha).
    rewrite (IH (S n)); [reflexivity|].
    replace (S n + m)%nat with (n + S m)%nat by lia. exact Hget.
Qed.

Lemma substring_length (s : string) (n m : nat) :
  (n + m <= String.length s)%nat -> String.length (substring n m s) = m.
Proof.
  revert n m. induction s as [|a s IH]; intros [|n] [|m] H; simpl in *;
    try reflexivity; try lia.
  - f_equal. apply IH. lia.
  - apply IH. lia.
  - apply IH. lia.
Qed.

(** The five ways the inline rule leaves a position that holds a ["$"]. *)
Lemma math_inline_cases (state : StateInline) (silent : bool) :
  Js.char_at (src state) (pos state) = Some "$"%char ->
  let start := pos state + 1 in
  let m := find_closing (src state) start in
  let literal :=
    (true, set_pos (if negb silent then add_pending state "$" else state) start) in
  (can_open (isValidDelimiter state (pos state)) = false
   /\ math_inline state silent = literal)
  \/ (can_open (isValidDelimiter state (pos state)) = true /\ m = -1
      /\ math_inline state silent = literal)
  \/ (can_open (isValidDelimiter state (pos state)) = true
      /\ first_unescaped (src state) start m /\ m = start
      /\ math_inline state silent
         = (true, set_pos (if negb silent then add_pending state "$$" else state)
                          (start + 1)))
  \/ (can_open (isValidDelimiter state (pos state)) = true
      /\ first_unescaped (src state) start m /\ m <> start
      /\ can_close (isValidDelimiter state m) = false
      /\ math_inline state silent = literal)
  \/ (can_open (isValidDelimiter state (pos state)) = true
      /\ first_unescaped (src state) start m /\ m <> start
      /\ can_close (isValidDelimiter state m) = true
      /\ math_inline state silent
         = (true,
            if silent then set_pos state (m + 1)
            else mkInline (src state) (m + 1) (posMax state) ""
                   (tokens state ++ flushed_pending (pending state)
                    ++ [inline_token (Js.slice (src state) start m)]))).
Proof.
  intros Hdollar. cbn zeta. apply char_is_true in Hdollar.
  unfold math_inline. rewrite Hdollar. cbn [negb].
  destruct (can_open (isValidDelimiter state (pos state))); cbn [negb];
    [|left; split; destruct silent; reflexivity].
  right. cbn zeta.
  destruct (find_closing_spec (src state) (pos state + 1)) as [[E _]|[Hne Hfirst]].
  - left. rewrite E. cbn. repeat split; destruct silent; reflexivity.
  - right. cbn zeta in Hne, Hfirst.
    destruct (Z.eqb_spec (find_closing (src state) (pos state + 1)) (-1));
      [contradiction|].
    destruct (Z.eqb_spec (find_closing (src state) (pos state + 1) - (pos state + 1)) 0)
      as [E0|E0].
    + left. split; [reflexivity|]. split; [exact Hfirst|]. split; [lia|]. reflexivity.
    + right.
      destruct (can_close (isValidDelimiter state
                             (find_closing (src state) (pos state + 1)))) eqn:Ec;
        cbn [negb]; [right | left];
        (split; [reflexivity|]); (split; [exact Hfirst|]); (split; [lia|]);
        (split; [reflexivity|]).
      * destruct silent; cbn [negb]; rewrite ?push_inline_result; reflexivity.
      * reflexivity.
Qed.

Lemma math_inline_not_dollar (state : StateInline) (silent : bool) :
  Js.char_at (src state) (pos state) <> Some "$"%char ->
  math_inline state silent = (false, state).
Proof.
  intros Hc. unfold math_inline.
  destruct (Js.char_is (Js.char_at (src state) (pos state)) "$") eqn:E;
    [|reflexivity].
  apply char_is_true in E. contradiction.
Qed.

Lemma first_unescaped_range (s : string) (start m : Z) :
  first_unescaped s start m -> start <= m < Js.len s.
Proof.
  intros (Hge & [Hc _] & _). apply char_at_some_range in Hc. lia.
Qed.

(** X1.  The inline rule applies exactly at a ["$"]: in both modes it
    returns [true] if and only if the cursor holds a ["$"], and when it
    returns [false] it leaves the whole state as it was. *)
Theorem math_inline_applies_iff (state : StateInline) (silent : bool) :
  (fst (math_inline state silent) = true
   <-> Js.char_at (src state) (pos state) = Some "$"%char)
  /\ (fst (math_inline state silent) = false
      -> snd (math_inline state silent) = state).
Proof.
  destruct (Js.char_is (Js.char_at (src state) (pos state)) "$") eqn:E.
  - apply char_is_true in E.
    rewrite (math_inline_handles_dollar state silent E).
    split; [split; [intros _; exact E | reflexivity] | discriminate].
  - assert (Js.char_at (src state) (pos state) <> Some "$"%char) as Hc.
    { intros Hc. apply char_is_true in Hc. congruence. }
    rewrite (math_inline_not_dollar state silent Hc). cbn [fst snd].
    split; [split; [discriminate | contradiction] | reflexivity].
Qed.

(** X2.  Whenever the inline rule returns [true], in either mode, the
    cursor has moved forward and is still within the buffer. *)
Theorem math_inline_advances (state : StateInline) (silent : bool) :
  fst (math_inline state silent) = true ->
  pos state < pos (snd (math_inline state silent)) <= Js.len (src state).
Proof.
  intros Htrue.
  assert (Js.char_at (src state) (pos state) = Some "$"%char) as Hdollar.
  { destruct (Js.char_is (Js.char_at (src state) (pos state)) "$") eqn:E;
      [apply char_is_true; exact E|].
    assert (Js.char_at (src state) (pos state) <> Some "$"%char) as Hc
      by (intros Hc; apply char_is_true in Hc; congruence).
    rewrite (math_inline_not_dollar state silent Hc) in Htrue. discriminate. }
  pose proof (char_at_some_range _ _ _ Hdollar) as Hp.
  destruct (math_inline_cases state silent Hdollar)
    as [[_ ->]|[(_ & _ & ->)|[(_ & Hf & _ & ->)|[(_ & _ & _ & _ & ->)|(_ & Hf & _ & _ & ->)]]]];
    cbn [snd set_pos pos]; try lia;
    apply first_unescaped_range in Hf; try lia.
  destruct silent; cbn [set_pos pos]; lia.
Qed.

Lemma math_inline_advances_witness :
  pos (inline_state "a $x$ b" 2)
  < pos (snd (math_inline (inline_state "a $x$ b" 2) true))
  <= Js.len (src (inline_state "a $x$ b" 2)).
Proof.
  exact (math_inline_advances (inline_state "a $x$ b" 2) true eq_refl).
Defined.

(** X3.  In commit mode no character is lost at a ["$"]: the buffer and
    the scan limit are unchanged, and the text between the old and the
    new cursor either is appended to the pending text, the token list
    staying as it was; or it is ["$"], the content of a token of type
    [math_inline] with markup ["$"], and ["$"], and that token is emitted
    last, after the earlier tokens and after the text that was pending,
    which the host's [push] flushes into a [text] token. *)
Theorem math_inline_commit_conserves (state : StateInline) :
  Js.char_at (src state) (pos state) = Some "$"%char ->
  src (snd (math_inline state false)) = src state
  /\ posMax (snd (math_inline state false)) = posMax state
  /\ ((tokens (snd (math_inline state false)) = tokens state
       /\ pending (snd (math_inline state false))
          = (pending state
             ++ substring (Z.to_nat (pos state))
                  (Z.to_nat (pos (snd (math_inline state false)) - pos state))
                  (src state))%string)
      \/ (exists tok,
           tokens (snd (math_inline state false))
           = (tokens state ++ flushed_pending (pending state) ++ [tok])%list
           /\ pending (snd (math_inline state false)) = ""
           /\ ttype tok = "math_inline" /\ markup tok = "$"
           /\ substring (Z.to_nat (pos state))
                (Z.to_nat (pos (snd (math_inline state false)) - pos state))
                (src state)
              = ("$" ++ content tok ++ "$")%string)).
Proof.
  intros Hdollar.
  pose proof (char_at_some_range _ _ _ Hdollar) as Hp.
  assert (String.get (Z.to_nat (pos state)) (src state) = Some "$"%char) as Hget.
  { rewrite <- char_at_of_nat. rewrite Z2Nat.id by lia. exact Hdollar. }
  assert (substring (Z.to_nat (pos state)) 1 (src state) = "$") as Hone.
  { rewrite (substring_cons _ _ _ _ Hget), substring_zero. reflexivity. }
  destruct (math_inline_cases state false Hdollar)
    as [[_ ->]|[(_ & _ & ->)|[(_ & Hf & Em & ->)|[(_ & _ & _ & _ & ->)|(_ & Hf & Hne & _ & ->)]]]];
    cbn [snd negb set_pos add_pending src pos posMax pending tokens];
    (split; [reflexivity|]); (split; [reflexivity|]).
  1,2,4: left; split; [reflexivity|];
    replace (Z.to_nat (pos state + 1 - pos state)) with 1%nat by lia;
    rewrite Hone; reflexivity.
  - left. split; [reflexivity|].
    replace (Z.to_nat (pos state + 1 + 1 - pos state)) with 2%nat by lia.
    destruct Hf as (_ & [Hc _] & _). rewrite Em in Hc.
    assert (String.get (S (Z.to_nat (pos state))) (src state) = Some "$"%char) as Hget1.
    { rewrite <- char_at_of_nat. rewrite <- Hc. f_equal. lia. }
    rewrite (substring_cons _ _ _ _ Hget), (substring_cons _ _ _ _ Hget1),
      substring_zero. reflexivity.
  - right. pose proof (first_unescaped_range _ _ _ Hf) as Hr.
    destruct Hf as (_ & [Hc _] & _).
    set (m := find_closing (src state) (pos state + 1)) in *.
    exists (inline_token (Js.slice (src state) (pos state + 1) m)).
    split; [reflexivity|]. split; [reflexivity|].
    split; [reflexivity|]. split; [reflexivity|].
    cbn [inline_token content].
    rewrite slice_in_range by lia.
    replace (Z.to_nat (m + 1 - pos state))
      with (S (S (Z.to_nat (m - (pos state + 1))))) by lia.
    rewrite (substring_cons _ _ _ _ Hget).
    replace (Z.to_nat (pos state + 1)) with (S (Z.to_nat (pos state))) by lia.
    rewrite (substring_snoc _ _ _ "$"); [reflexivity|].
    rewrite <- char_at_of_nat. rewrite <- Hc. f_equal. lia.
Qed.

(** On ["a $x$ b"] at index 2 with ["a "] pending: the consumed text
    ["$x$"] is found again around the content of the emitted token, and
    the pending text is found again in the flushed [text] token. *)
Lemma math_inline_commit_conserves_witness :
  src (snd (math_inline (mkInline "a $x$ b" 2 7 "a " []) false)) = "a $x$ b"
  /\ posMax (snd (math_inline (mkInline "a $x$ b" 2 7 "a " []) false)) = 7
  /\ ((tokens (snd (math_inline (mkInline "a $x$ b" 2 7 "a " []) false)) = []
       /\ pending (snd (math_inline (mkInline "a $x$ b" 2 7 "a " []) false))
          = ("a "
             ++ substring 2
                  (Z.to_nat (pos (snd (math_inline (mkInline "a $x$ b" 2 7 "a " []) false)) - 2))
                  "a $x$ b")%string)
      \/ (exists tok,
           tokens (snd (math_inline (mkInline "a $x$ b" 2 7 "a " []) false))
           = ([] ++ [mkToken "text" "" 0 "" "a " false None] ++ [tok])%list
           /\ pending (snd (math_inline (mkInline "a $x$ b" 2 7 "a " []) false)) = ""
           /\ ttype tok = "math_inline" /\ markup tok = "$"
           /\ substring 2
                (Z.to_nat (pos (snd (math_inline (mkInline "a $x$ b" 2 7 "a " []) false)) - 2))
                "a $x$ b"
              = ("$" ++ content tok ++ "$")%string)).
Proof.
  exact (math_inline_commit_conserves (mkInline "a $x$ b" 2 7 "a " []) eq_refl).
Defined.

Lemma backslashes_before_after (s : string) (k : nat) (c : ascii) :
  String.get k s = Some c -> c <> "\"%char -> backslashes_before s (S k) = O.
Proof.
  intros Hget Hc. cbn [backslashes_before].
  destruct (Js.char_is (String.get k s) "\") eqn:E; [|reflexivity].
  apply char_is_true in E. congruence.
Qed.

(** X4.  Two ["$"] in a row are never a span: in commit mode both are
    appended to the pending text, no token is emitted and the cursor moves
    past both, whatever surrounds them. *)
Theorem math_inline_empty_span (state : StateInline) :
  Js.char_at (src state) (pos state) = Some "$"%char ->
  Js.char_at (src state) (pos state + 1) = Some "$"%char ->
  math_inline state false
  = (true,
     mkInline (src state) (pos state + 2) (posMax state)
              (pending state ++ "$$")%string (tokens state)).
Proof.
  intros Hdollar Hnext.
  pose proof (char_at_some_range _ _ _ Hdollar) as Hp.
  assert (can_open (isValidDelimiter state (pos state)) = true) as Hopen.
  { destruct (can_open (isValidDelimiter state (pos state))) eqn:E; [reflexivity|].
    apply (proj2 (isValidDelimiter_flags_limit state (pos state))) in E.
    unfold next_within_limit in E. rewrite Hnext in E.
    destruct (pos state + 1 <=? posMax state); destruct E as [E|E]; discriminate. }
  assert (first_unescaped (src state) (pos state + 1) (pos state + 1)) as Hfirst.
  { split; [lia|]. split; [|intros j Hj; lia].
    split; [exact Hnext|].
    replace (Z.to_nat (pos state + 1)) with (S (Z.to_nat (pos state))) by lia.
    rewrite (backslashes_before_after _ _ "$"); [reflexivity | | discriminate].
    rewrite <- char_at_of_nat, Z2Nat.id by lia. exact Hdollar. }
  apply find_closing_first_unescaped in Hfirst.
  apply char_is_true in Hdollar.
  unfold math_inline. rewrite Hdollar, Hopen. cbn [negb]. cbn zeta.
  rewrite Hfirst.
  destruct (Z.eqb_spec (pos state + 1) (-1)); [lia|].
  destruct (Z.eqb_spec (pos state + 1 - (pos state + 1)) 0); [|lia].
  unfold set_pos, add_pending. cbn [src pos posMax pending tokens negb].
  do 2 f_equal. lia.
Qed.

Lemma math_inline_empty_span_witness :
  math_inline (inline_state "a$$b" 1) false = (true, mkInline "a$$b" 3 4 "$$" []).
Proof.
  exact (math_inline_empty_span (inline_state "a$$b" 1) eq_refl eq_refl).
Defined.

(** X5.  A ["$"] that does not start a span is literal text.  When the
    next character is not a ["$"] and either the ["$"] cannot open, or no
    unescaped ["$"] follows, or the first unescaped ["$"] that follows
    cannot close, then in commit mode exactly that one ["$"] is appended to
    the pending text, no token is emitted, and the cursor moves one
    character only, so that the rest, the rejected closer included, is
    scanned again. *)
Theorem math_inline_literal_dollar (state : StateInline) :
  Js.char_at (src state) (pos state) = Some "$"%char ->
  Js.char_at (src state) (pos state + 1) <> Some "$"%char ->
  (can_open (isValidDelimiter state (pos state)) = true ->
   forall m, first_unescaped (src state) (pos state + 1) m ->
             can_close (isValidDelimiter state m) = false) ->
  math_inline state false
  = (true,
     mkInline (src state) (pos state + 1) (posMax state)
              (pending state ++ "$")%string (tokens state)).
Proof.
  intros Hdollar Hnext Hreject.
  destruct (math_inline_cases state false Hdollar)
    as [[_ ->]|[(_ & _ & ->)|[(_ & Hf & Em & _)|[(_ & _ & _ & _ & ->)|(Ho & Hf & _ & Hc & _)]]]];
    try reflexivity; exfalso.
  - destruct Hf as (_ & [Hc _] & _). rewrite Em in Hc. contradiction.
  - rewrite (Hreject Ho _ Hf) in Hc. discriminate.
Qed.

Lemma math_inline_literal_dollar_witness :
  math_inline (inline_state "$x $" 0) false = (true, mkInline "$x $" 1 4 "$" [])
  /\ math_inline (inline_state "$ x$" 0) false = (true, mkInline "$ x$" 1 4 "$" [])
  /\ math_inline (inline_state "$x" 0) false = (true, mkInline "$x" 1 2 "$" []).
Proof.
  split; [|split].
  - apply (math_inline_literal_dollar (inline_state "$x $" 0));
      [reflexivity | discriminate |].
    intros _ m Hm.
    assert (first_unescaped "$x $" 1 3) as H3.
    { split; [lia|]. split; [split; reflexivity|].
      intros j Hj Hc. assert (j = 1 \/ j = 2) as [ -> | -> ] by lia; discriminate Hc. }
    rewrite (first_unescaped_unique _ _ _ _ Hm H3). reflexivity.
  - apply (math_inline_literal_dollar (inline_state "$ x$" 0));
      [reflexivity | discriminate |].
    intros Ho. discriminate Ho.
  - apply (math_inline_literal_dollar (inline_state "$x" 0));
      [reflexivity | discriminate |].
    intros _ m Hm. exfalso.
    pose proof (first_unescaped_range _ _ _ Hm) as [H1 H2].
    destruct Hm as (_ & [Hc _] & _).
    assert (Js.len (src (inline_state "$x" 0)) = 2) as E by reflexivity.
    assert (pos (inline_state "$x" 0) = 0) as E0 by reflexivity.
    rewrite E in H2. rewrite E0 in H1.
    assert (m = 1) as -> by lia.
    discriminate Hc.
Defined.



Lemma get_app_r (s1 s2 : string) (n : nat) :
  String.get (String.length s1 + n) (s1 ++ s2) = String.get n s2.
Proof.
  rewrite Nat.add_comm. symmetry. apply append_correct2.
Qed.

Lemma substring_app_skip (s1 s2 : string) (n m : nat) :
  substring (String.length s1 + n) m (s1 ++ s2) = substring n m s2.
Proof.
  induction s1 as [|c s1 IH]; simpl; [reflexivity | exact IH].
Qed.

Lemma substring_prefix (x r : string) :
  substring 0 (String.length x) (x ++ r) = x.
Proof.
  induction x as [|c x IH]; simpl.
  - destruct r; reflexivity.
  - now rewrite IH.
Qed.

Lemma next_within_limit_full (state : StateInline) (p : Z) :
  Js.len (src state) <= posMax state ->
  next_within_limit state p = Js.char_at (src state) (p + 1).
Proof.
  intros Hmax. unfold next_within_limit.
  destruct (Z.leb_spec (p + 1) (posMax state)); [reflexivity|].
  symmetry. apply char_at_beyond. lia.
Qed.

(** The span branch of the inline rule in commit mode. *)
Lemma math_inline_span (state : StateInline) (m : Z) :
  Js.char_at (src state) (pos state) = Some "$"%char ->
  can_open (isValidDelimiter state (pos state)) = true ->
  first_unescaped (src state) (pos state + 1) m ->
  m <> pos state + 1 ->
  can_close (isValidDelimiter state m) = true ->
  math_inline state false
  = (true,
     mkInline (src state) (m + 1) (posMax state) ""
       (tokens state
        ++ flushed_pending (pending state)
        ++ [mkToken "math_inline" "math" 0 "$"
              (substring (Z.to_nat (pos state + 1))
                         (Z.to_nat (m - (pos state + 1))) (src state))
              false None])).
Proof.
  intros Hdollar Hopen Hfirst Hadj Hclose.
  pose proof (find_closing_first_unescaped _ _ _ Hfirst) as Hfind.
  pose proof (first_unescaped_range _ _ _ Hfirst) as Hm.
  pose proof (char_at_some_range _ _ _ Hdollar) as Hp.
  unfold math_inline.
  apply char_is_true in Hdollar. rewrite Hdollar, Hopen. cbn [negb].
  cbn zeta. rewrite Hfind.
  destruct (Z.eqb_spec m (-1)); [lia|].
  destruct (Z.eqb_spec (m - (pos state + 1)) 0); [lia|].
  rewrite Hclose. cbn [negb].
  rewrite push_inline_result, slice_in_range by lia. reflexivity.
Qed.

(** X7.  Wrapping and scanning is a round trip.  Let [x] hold no ["$"],
    start with a character that is neither space nor tab, and end with one
    that is neither space, tab nor backslash; let the text after the
    closing ["$"] not start with a digit.  Then, wherever ["$" ++ x ++ "$"]
    stands in the buffer, the inline rule at its first character emits
    exactly one token of type [math_inline], with markup ["$"] and content
    [x], after the earlier tokens and the text that was pending (flushed
    by the host's [push] into a [text] token), and moves the cursor just
    past the closing ["$"]. *)
Theorem math_inline_wrapped_span (pre x post pend : string) (toks : list Token)
  (a b : ascii) :
  String.get 0 x = Some a -> ~ space_or_tab (Some a) ->
  String.get (String.length x - 1) x = Some b -> ~ space_or_tab (Some b) ->
  b <> "\"%char ->
  (forall j, String.get j x <> Some "$"%char) ->
  ~ ascii_digit (String.get 0 post) ->
  math_inline
    (mkInline (pre ++ "$" ++ x ++ "$" ++ post) (Js.len pre)
              (Js.len (pre ++ "$" ++ x ++ "$" ++ post)) pend toks) false
  = (true,
     mkInline (pre ++ "$" ++ x ++ "$" ++ post) (Js.len pre + Js.len x + 2)
              (Js.len (pre ++ "$" ++ x ++ "$" ++ post)) ""
              (toks ++ flushed_pending pend
               ++ [mkToken "math_inline" "math" 0 "$" x false None])).
Proof.
  intros Ha Hsa Hb Hsb Hbs Hno Hpost.
  set (text := (pre ++ "$" ++ x ++ "$" ++ post)%string).
  set (state := mkInline text (Js.len pre) (Js.len text) pend toks).
  set (lp := String.length pre). set (lx := String.length x) in *.
  assert (0 < lx)%nat as Hlx by (apply get_some_lt in Ha; exact Ha).
  assert (forall n, Js.char_at text (Z.of_nat (lp + n))
                    = String.get n ("$" ++ x ++ "$" ++ post)) as Hat.
  { intros n. rewrite char_at_of_nat. apply get_app_r. }
  assert (forall j, (j < lx)%nat ->
                    Js.char_at text (Z.of_nat (lp + S j)) = String.get j x) as Hx.
  { intros j Hj. rewrite Hat. cbn [String.append String.get].
    symmetry. apply append_correct1. exact Hj. }
  assert (forall n, Js.char_at text (Z.of_nat (lp + S (lx + n)))
                    = String.get n ("$" ++ post)) as Hafter.
  { intros n. rewrite Hat. cbn [String.append String.get]. apply get_app_r. }
  assert (Js.char_at text (Js.len pre) = Some "$"%char) as Hdollar.
  { unfold Js.len. fold lp. replace (Z.of_nat lp) with (Z.of_nat (lp + 0)) by lia.
    rewrite Hat. reflexivity. }
  assert (Js.len pre + 1 = Z.of_nat (lp + S 0)) as Estart by (unfold Js.len; lia).
  set (m := Z.of_nat (lp + S (lx + 0))).
  assert (Js.char_at text m = Some "$"%char) as Hm by (unfold m; rewrite Hafter; reflexivity).
  assert (first_unescaped text (Js.len pre + 1) m) as Hfirst.
  { split; [unfold m; lia|]. split.
    - split; [exact Hm|].
      unfold m. rewrite Nat2Z.id.
      replace (lp + S (lx + 0))%nat with (S (lp + lx))%nat by lia.
      rewrite (backslashes_before_after _ _ b); [reflexivity | | exact Hbs].
      rewrite <- char_at_of_nat.
      replace (lp + lx)%nat with (lp + S (lx - 1))%nat by lia.
      rewrite Hx by lia. exact Hb.
    - intros j Hj Hc. exfalso. unfold m in Hj.
      replace j with (Z.of_nat (lp + S (Z.to_nat (j - Js.len pre - 1)))) in Hc
        by (unfold Js.len in *; lia).
      rewrite Hx in Hc by (unfold Js.len in *; lia).
      exact (Hno _ Hc). }
  assert (can_open (isValidDelimiter state (pos state)) = true) as Hopen.
  { destruct (can_open (isValidDelimiter state (pos state))) eqn:E; [reflexivity|].
    apply (proj2 (isValidDelimiter_flags_limit state (pos state))) in E.
    rewrite next_within_limit_full in E by (cbn; lia).
    cbn [src pos state] in E. rewrite Estart, (Hx 0%nat Hlx), Ha in E.
    contradiction. }
  assert (can_close (isValidDelimiter state m) = true) as Hclose.
  { destruct (can_close (isValidDelimiter state m)) eqn:E; [reflexivity|].
    apply (proj1 (isValidDelimiter_flags_limit state m)) in E.
    rewrite next_within_limit_full in E by (cbn; lia).
    cbn [src state] in E. exfalso. destruct E as [E|E].
    - replace (m - 1) with (Z.of_nat (lp + S (lx - 1))) in E by (unfold m; lia).
      rewrite Hx, Hb in E by lia. contradiction.
    - replace (m + 1) with (Z.of_nat (lp + S (lx + 1))) in E by (unfold m; lia).
      rewrite Hafter in E. cbn [String.append String.get] in E. contradiction. }
  rewrite (math_inline_span state m Hdollar Hopen Hfirst
             ltac:(cbn [pos state]; unfold m, Js.len; lia) Hclose).
  cbn [src pos posMax pending tokens state].
  f_equal. f_equal; [unfold m, Js.len; lia|].
  do 3 f_equal.
  replace (Z.to_nat (Js.len pre + 1)) with (lp + 1)%nat by (unfold Js.len; lia).
  replace (Z.to_nat (m - (Js.len pre + 1))) with lx by (unfold m, Js.len; lia).
  unfold text, lp, lx. rewrite substring_app_skip. cbn [String.append substring].
  now rewrite substring_prefix.
Qed.

Lemma math_inline_wrapped_span_witness :
  math_inline (mkInline "see $E=mc^2$, ok" 4 16 "see " []) false
  = (true,
     mkInline "see $E=mc^2$, ok" 12 16 ""
       [mkToken "text" "" 0 "" "see " false None;
        mkToken "math_inline" "math" 0 "$" "E=mc^2" false None]).
Proof.
  refine (math_inline_wrapped_span "see " "E=mc^2" ", ok" "see " [] "E" "2"
            eq_refl _ eq_refl _ _ _ _).
  - intros [H|H]; discriminate H.
  - intros [H|H]; discriminate H.
  - discriminate.
  - intros j. do 7 (destruct j as [|j]; [discriminate|]). discriminate.
  - intros (c & H & Hc). injection H as <-. cbn in Hc. lia.
Defined.

(** ** Further properties of the block rule *)

(** The loop never goes back and never passes the end by more than the
    one step it takes first. *)
Lemma scan_lines_range (state : StateBlock) (end_ next : Z) :
  next < fst (scan_lines state end_ next) <= Z.max (next + 1) end_.
Proof.
  remember (Z.to_nat (end_ - next)) as k eqn:Hk.
  revert next Hk. induction k as [|k IH]; intros next Hk;
    rewrite scan_lines_step;
    destruct (Z.geb_spec (next + 1) end_) as [Hge|Hlt]; cbn [fst]; try lia.
  cbn zeta.
  destruct ((bMarks state (next + 1) + tShift state (next + 1) <? eMarks state (next + 1))
            && (tShift state (next + 1) <? blkIndent state)); cbn [fst]; [lia|].
  destruct (Js.slice_from _ _ =? "$$")%string; cbn [fst]; [lia|].
  specialize (IH (next + 1) ltac:(lia)). lia.
Qed.

(** The loop left at a closing line. *)
Lemma scan_lines_close (state : StateBlock) (end_ next n : Z) :
  next < n < end_ ->
  (forall i, next < i < n -> line_passes state i) ->
  line_closes state n ->
  scan_lines state end_ next
  = (n, Some (Js.slice (bsrc state) (bMarks state n + tShift state n)
                (Js.lastIndexOf (Js.slice (bsrc state) 0 (eMarks state n)) "$$"))).
Proof.
  remember (Z.to_nat (n - next)) as k eqn:Hk.
  revert next Hk. induction k as [|k IH]; intros next Hk Hn Hpass Hclose; [lia|].
  rewrite scan_lines_step. destruct (Z.geb_spec (next + 1) end_); [lia|].
  cbn zeta. destruct (Z.eq_dec (next + 1) n) as [->|Hne].
  - destruct Hclose as [H1 H2]. cbn zeta in H1, H2. rewrite H1, H2. reflexivity.
  - destruct (Hpass (next + 1) ltac:(lia)) as [E1 E2].
    cbn zeta in E1, E2. rewrite E1, E2.
    apply IH; [lia | lia | | exact Hclose].
    intros i Hi. apply Hpass. lia.
Qed.

Lemma math_block_no_marker (state : StateBlock) (start end_ : Z) (silent : bool) :
  ~ has_marker state start ->
  math_block state start end_ silent = (false, state).
Proof.
  intros Hno. unfold math_block. cbn zeta.
  destruct (Z.gtb_spec (bMarks state start + tShift state start + 2)
              (eMarks state start)) as [Hgt|Hle]; [reflexivity|].
  destruct (String.eqb_spec
              (Js.slice (bsrc state) (bMarks state start + tShift state start)
                        (bMarks state start + tShift state start + 2)) "$$")
    as [E|E]; [|reflexivity].
  exfalso. apply Hno. split; assumption.
Qed.

Lemma has_marker_dec (state : StateBlock) (start : Z) :
  has_marker state start \/ ~ has_marker state start.
Proof.
  unfold has_marker.
  destruct (Z_le_gt_dec (bMarks state start + tShift state start + 2)
              (eMarks state start));
    [|right; intros [H _]; lia].
  destruct (String.eqb_spec
              (Js.slice (bsrc state) (bMarks state start + tShift state start)
                        (bMarks state start + tShift state start + 2)) "$$");
    [left; split; assumption | right; intros [_ H]; contradiction].
Qed.

(** X8.  The block rule applies exactly to a line that starts, after its
    indentation, with ["$$"]: in both modes it returns [true] if and only
    if the line has room for the marker and holds it, whatever the later
    lines hold; and when it returns [false] the state is unchanged. *)
Theorem math_block_applies_iff (state : StateBlock) (start end_ : Z) (silent : bool) :
  (fst (math_block state start end_ silent) = true <-> has_marker state start)
  /\ (fst (math_block state start end_ silent) = false
      -> snd (math_block state start end_ silent) = state).
Proof.
  destruct (has_marker_dec state start) as [Hm|Hm].
  - destruct Hm as [H1 H2].
    rewrite (math_block_accepts state start end_ silent H1 H2).
    split; [split; [intros _; split; assumption | reflexivity] | discriminate].
  - rewrite (math_block_no_marker state start end_ silent Hm). cbn [fst snd].
    split; [split; [discriminate | contradiction] | reflexivity].
Qed.

(** X9.  A probe of the block rule changes nothing at all, the line
    pointer included, and returns the boolean of the commit call. *)
Theorem math_block_probe (state : StateBlock) (start end_ : Z) :
  snd (math_block state start end_ true) = state
  /\ fst (math_block state start end_ true) = fst (math_block state start end_ false).
Proof.
  destruct (has_marker_dec state start) as [[H1 H2]|Hm].
  - rewrite !(math_block_accepts state start end_ _ H1 H2).
    split; [|reflexivity].
    unfold math_block. cbn zeta.
    destruct (Z.gtb_spec (bMarks state start + tShift state start + 2)
                (eMarks state start)); [lia|].
    rewrite H2. reflexivity.
  - rewrite !(math_block_no_marker state start end_ _ Hm). split; reflexivity.
Qed.

(** X10.  A block that closes on its opening line.  When the text after
    the opening marker, trimmed, ends with ["$$"], the commit call returns
    [true], appends exactly one token to the token list and sets the line
    pointer to [start + 1], leaving every other field of the state as it
    was.  The token has type [math_block], tag [math], nesting 0, markup
    ["$$"], the block flag set and the line range [(start, start + 1)];
    its content is the trimmed text without its last two characters,
    followed by a newline unless blank, then what the host's [getLines]
    returns for the empty range of lines; no later line is looked at, so
    the result is the same for every [end_]. *)
Theorem math_block_single_line (state : StateBlock) (start end_ : Z) :
  has_marker state start ->
  (Js.slice_from (Js.trim (first_line_rest state start)) (-2) =? "$$")%string = true ->
  math_block state start end_ false
  = (true,
     mkBlock (bsrc state) (bMarks state) (tShift state) (eMarks state)
       (blkIndent state) (start + 1) (getLines state)
       (btokens state
        ++ [mkToken "math_block" "math" 0 "$$"
              (single_line_text state start
               ++ getLines state (start + 1) start (tShift state start) true)%string
              true (Some (start, start + 1))])).
Proof.
  intros [H1 H2] Hsingle. unfold first_line_rest in Hsingle.
  unfold math_block, single_line_text, first_line_rest. cbn zeta.
  destruct (Z.gtb_spec (bMarks state start + tShift state start + 2)
              (eMarks state start)); [lia|].
  rewrite H2. cbn [String.eqb negb]. rewrite Hsingle.
  now rewrite append_empty_r.
Qed.

(** The document ["$$ x $$"] on one line. *)
Definition one_line_state (gl : Z -> Z -> Z -> bool -> string) : StateBlock :=
  block_state "$$ x $$" [0; 7] [0; 0] [7; 7] 0 gl.

Lemma math_block_single_line_witness :
  math_block (one_line_state (fun _ _ _ _ => "")) 0 1 false
  = (true,
     mkBlock "$$ x $$" (lines_table [0; 7]) (lines_table [0; 0])
       (lines_table [7; 7]) 0 1 (fun _ _ _ _ => "")
       [mkToken "math_block" "math" 0 "$$" ("x " ++ LF) true (Some (0, 1))]).
Proof.
  apply (math_block_single_line (one_line_state (fun _ _ _ _ => "")) 0 1).
  - split; [vm_compute; discriminate | vm_compute; reflexivity].
  - vm_compute; reflexivity.
Defined.

(** X11.  A block closed on a later line.  When the opening line is not
    closed, the lines up to [n] neither stop the loop nor close, and line
    [n] is the first whose trimmed text ends with ["$$"], the commit call
    returns [true], consumes the closing line and appends exactly one
    token, leaving every other field of the state as it was: the line
    pointer and the end of the token's range are [n + 1].  The token has
    type [math_block], tag [math], nesting 0, markup ["$$"] and the block
    flag set; its content is the text of the opening line, the lines
    [start + 1] to [n] (exclusive) as the host's [getLines] returns them,
    and the text of line [n] before its last marker. *)
Theorem math_block_closed (state : StateBlock) (start end_ n : Z) :
  start < n < end_ ->
  opens_block state start ->
  (forall i, start < i < n -> line_passes state i) ->
  line_closes state n ->
  math_block state start end_ false
  = (true,
     mkBlock (bsrc state) (bMarks state) (tShift state) (eMarks state)
       (blkIndent state) (n + 1) (getLines state)
       (btokens state
        ++ [mkToken "math_block" "math" 0 "$$"
              (first_line_text state start
               ++ getLines state (start + 1) n (tShift state start) true
               ++ last_line_text state n)%string
              true (Some (start, n + 1))])).
Proof.
  intros Hn Hopen Hpass Hclose. rewrite (math_block_open _ _ _ Hopen).
  rewrite (scan_lines_close _ _ _ _ Hn Hpass Hclose). reflexivity.
Qed.

(** The document ["$$"], ["E=mc^2"], ["$$"]. *)
Definition closed_state (gl : Z -> Z -> Z -> bool -> string) : StateBlock :=
  block_state ("$$" ++ LF ++ "E=mc^2" ++ LF ++ "$$")
              [0; 3; 10; 12] [0; 0; 0; 0] [2; 9; 12; 12] 0 gl.

Lemma math_block_closed_witness :
  math_block (closed_state (fun _ _ _ _ => "E=mc^2" ++ LF)%string) 0 3 false
  = (true,
     mkBlock ("$$" ++ LF ++ "E=mc^2" ++ LF ++ "$$")
       (lines_table [0; 3; 10; 12]) (lines_table [0; 0; 0; 0])
       (lines_table [2; 9; 12; 12]) 0 3 (fun _ _ _ _ => "E=mc^2" ++ LF)%string
       [mkToken "math_block" "math" 0 "$$" ("E=mc^2" ++ LF) true (Some (0, 3))]).
Proof.
  refine (math_block_closed (closed_state (fun _ _ _ _ => "E=mc^2" ++ LF)%string)
            0 3 2 ltac:(lia) _ _ _).
  - split; [cbn; lia|]. split; reflexivity.
  - intros i Hi. assert (i = 1) as -> by lia. split; reflexivity.
  - split; reflexivity.
Defined.

(** X12.  Whenever the commit call of the block rule returns [true], it
    has appended exactly one token and set the line pointer, and nothing
    else: the buffer, the line tables, the indentation, the host's
    [getLines] and the earlier tokens are untouched.  The token has type
    [math_block], tag [math], nesting 0, markup ["$$"] and the block flag
    set; its line range starts at [start] and ends at the new line
    pointer; its content is some text of the opening line, then what the
    host's [getLines] returns for the lines from [start + 1] up to the
    last line consumed, then some text of that line.  The line pointer is
    beyond [start] and at most one line beyond the larger of [start + 1]
    and [end_]. *)
Theorem math_block_commit_shape (state : StateBlock) (start end_ : Z) :
  fst (math_block state start end_ false) = true ->
  exists (next : Z) (first last : string),
    math_block state start end_ false
    = (true,
       mkBlock (bsrc state) (bMarks state) (tShift state) (eMarks state)
         (blkIndent state) (next + 1) (getLines state)
         (btokens state
          ++ [mkToken "math_block" "math" 0 "$$"
                (first
                 ++ getLines state (start + 1) next (tShift state start) true
                 ++ last)%string
                true (Some (start, next + 1))]))
    /\ start <= next <= Z.max (start + 1) end_.
Proof.
  intros Htrue.
  destruct (has_marker_dec state start) as [[H1 H2]|Hm].
  2: { rewrite (math_block_no_marker state start end_ false Hm) in Htrue.
       discriminate. }
  clear Htrue. unfold math_block. cbn zeta.
  destruct (Z.gtb_spec (bMarks state start + tShift state start + 2)
              (eMarks state start)); [lia|].
  rewrite H2. cbn [String.eqb negb].
  destruct (Js.slice_from _ _ =? "$$")%string.
  - eexists. eexists. eexists. split; [reflexivity | lia].
  - pose proof (scan_lines_range state end_ start) as Hr.
    destruct (scan_lines state end_ start) as [next lastLine]. cbn [fst] in Hr.
    eexists. eexists. eexists. split; [reflexivity | lia].
Qed.

Lemma math_block_commit_shape_witness :
  exists (next : Z) (first last : string),
    math_block (unterminated_state (fun _ _ _ _ => "")) 0 2 false
    = (true,
       mkBlock ("$$" ++ LF ++ "foo") (lines_table [0; 3; 6]) (lines_table [0; 0; 0])
         (lines_table [2; 6; 6]) 0 (next + 1) (fun _ _ _ _ => "")
         [mkToken "math_block" "math" 0 "$$" (first ++ "" ++ last)%string
            true (Some (0, next + 1))])
    /\ 0 <= next <= Z.max (0 + 1) 2.
Proof.
  exact (math_block_commit_shape (unterminated_state (fun _ _ _ _ => "")) 0 2 eq_refl).
Defined.

(** ** Properties of the escaping *)

Lemma append_associative (a b c : string) :
  (a ++ (b ++ c))%string = ((a ++ b) ++ c)%string.
Proof.
  induction a as [|x a IH]; simpl; [reflexivity | now rewrite IH].
Qed.

Lemma replace_all_app (c : ascii) (by_ a b : string) :
  Js.replace_all c by_ (a ++ b) = (Js.replace_all c by_ a ++ Js.replace_all c by_ b)%string.
Proof.
  induction a as [|x a IH]; simpl; [reflexivity|].
  destruct (Ascii.eqb x c); rewrite IH; [|reflexivity].
  apply append_associative.
Qed.

Lemma escapeHtml_app (a b : string) :
  escapeHtml (a ++ b) = (escapeHtml a ++ escapeHtml b)%string.
Proof.
  unfold escapeHtml. now rewrite !replace_all_app.
Qed.

Lemma escapeHtml_char (c : ascii) : escapeHtml (String c "") = escape_char c.
Proof.
  destruct c as [[] [] [] [] [] [] [] []]; reflexivity.
Qed.

Lemma escapeHtml_cons (c : ascii) (s : string) :
  escapeHtml (String c s) = (escape_char c ++ escapeHtml s)%string.
Proof.
  change (String c s) with (String c "" ++ s)%string.
  now rewrite escapeHtml_app, escapeHtml_char.
Qed.

Lemma escapeHtml_each (s : string) : escapeHtml s = escape_each s.
Proof.
  induction s as [|c s IH]; [reflexivity|].
  rewrite escapeHtml_cons, IH. reflexivity.
Qed.

(** The shape of a replacement: an entity for a special character, the
    character itself otherwise. *)
Lemma escape_char_cases (c : ascii) :
  (html_special c = false /\ escape_char c = String c "")
  \/ (c = "&"%char /\ escape_char c = "&amp;")
  \/ (c = "<"%char /\ escape_char c = "&lt;")
  \/ (c = ">"%char /\ escape_char c = "&gt;")
  \/ (c = "034"%char /\ escape_char c = "&quot;")
  \/ (c = "'"%char /\ escape_char c = "&#039;").
Proof.
  unfold escape_char, html_special.
  destruct (Ascii.eqb_spec c "&"); [subst; right; left; split; reflexivity|].
  destruct (Ascii.eqb_spec c "<"); [subst; right; right; left; split; reflexivity|].
  destruct (Ascii.eqb_spec c ">"); [subst; do 3 right; left; split; reflexivity|].
  destruct (Ascii.eqb_spec c "034"); [subst; do 4 right; left; split; reflexivity|].
  destruct (Ascii.eqb_spec c "'"); [subst; do 5 right; split; reflexivity|].
  left. split; reflexivity.
Qed.

Lemma all_chars_app (p : ascii -> bool) (a b : string) :
  all_chars p (a ++ b) = all_chars p a && all_chars p b.
Proof.
  induction a as [|c a IH]; simpl; [reflexivity|].
  rewrite IH. apply andb_assoc.
Qed.

(** X13.  The five replacements of [escapeHtml], applied one after the
    other to the whole text, amount to one pass that replaces each
    character once: an ampersand written by a replacement is never escaped
    again, and escaping distributes over concatenation. *)
Theorem escapeHtml_single_pass (s : string) :
  escapeHtml s = escape_each s
  /\ forall t, escapeHtml (s ++ t) = (escapeHtml s ++ escapeHtml t)%string.
Proof.
  split; [apply escapeHtml_each | intros t; apply escapeHtml_app].
Qed.

Lemma escapeHtml_no_delimiter_aux (s : string) :
  all_chars (fun c => negb (html_delimiter c)) (escapeHtml s) = true.
Proof.
  rewrite escapeHtml_each. induction s as [|c s IH]; [reflexivity|].
  cbn [escape_each]. rewrite all_chars_app, IH, andb_true_r.
  destruct (escape_char_cases c) as [[Hs ->]|[[_ ->]|[[_ ->]|[[_ ->]|[[_ ->]|[_ ->]]]]]];
    try reflexivity.
  cbn [all_chars]. rewrite andb_true_r.
  unfold html_special in Hs. unfold html_delimiter.
  destruct (Ascii.eqb c "&"); cbn [orb] in Hs; [discriminate|].
  rewrite Hs. reflexivity.
Qed.

(** X14.  Escaped text holds none of the characters [<], [>], the double
    quote and the single quote: it cannot close the quoted attribute or
    open a tag in the markup it is embedded in. *)
Theorem escapeHtml_no_delimiter (s : string) :
  all_chars (fun c => negb (html_delimiter c)) (escapeHtml s) = true
  /\ forall j c, String.get j (escapeHtml s) = Some c ->
                 c <> "<"%char /\ c <> ">"%char /\ c <> "034"%char /\ c <> "'"%char.
Proof.
  pose proof (escapeHtml_no_delimiter_aux s) as Hall.
  split; [exact Hall|].
  generalize dependent (escapeHtml s). clear s.
  intros r. induction r as [|a r IH]; intros Hall j c Hget.
  - destruct j; discriminate.
  - cbn [all_chars] in Hall. apply andb_true_iff in Hall. destruct Hall as [Ha Hr].
    destruct j as [|j]; [|exact (IH Hr j c Hget)].
    injection Hget as <-. unfold html_delimiter in Ha.
    repeat split; intros ->; discriminate Ha.
Qed.

(** X15.  Escaping loses nothing: two texts with the same escaped form
    are equal. *)
Theorem escapeHtml_injective (a b : string) :
  escapeHtml a = escapeHtml b -> a = b.
Proof.
  rewrite !escapeHtml_each. revert b.
  induction a as [|c a IH]; intros [|d b] H.
  - reflexivity.
  - exfalso. cbn [escape_each] in H.
    destruct (escape_char_cases d) as [[_ E]|[[_ E]|[[_ E]|[[_ E]|[[_ E]|[_ E]]]]]];
      rewrite E in H; discriminate H.
  - exfalso. cbn [escape_each] in H.
    destruct (escape_char_cases c) as [[_ E]|[[_ E]|[[_ E]|[[_ E]|[[_ E]|[_ E]]]]]];
      rewrite E in H; discriminate H.
  - cbn [escape_each] in H.
    destruct (escape_char_cases c) as [[Hc Ec]|[[-> Ec]|[[-> Ec]|[[-> Ec]|[[-> Ec]|[-> Ec]]]]]];
      destruct (escape_char_cases d) as [[Hd Ed]|[[-> Ed]|[[-> Ed]|[[-> Ed]|[[-> Ed]|[-> Ed]]]]]];
      rewrite ?Ec, ?Ed in H; cbn [String.append] in H;
      try discriminate H;
      try (injection H as H; f_equal; apply IH; exact H);
      try (injection H as -> H; f_equal; apply IH; exact H);
      try (injection H as Hx _; subst; discriminate Hc);
      try (injection H as Hx _; subst; discriminate Hd).
Qed.

Lemma escapeHtml_injective_witness : "a<b" = "a<b".
Proof.
  exact (escapeHtml_injective "a<b" "a<b" eq_refl).
Defined.

Lemma length_append (a b : string) :
  String.length (a ++ b) = (String.length a + String.length b)%nat.
Proof.
  induction a as [|c a IH]; simpl; [reflexivity | now rewrite IH].
Qed.

Lemma escape_each_length (s : string) :
  (String.length s <= String.length (escape_each s))%nat.
Proof.
  induction s as [|c s IH]; [reflexivity|].
  cbn [escape_each]. rewrite length_append.
  destruct (escape_char_cases c) as [[_ ->]|[[_ ->]|[[_ ->]|[[_ ->]|[[_ ->]|[_ ->]]]]]];
    cbn [String.length]; lia.
Qed.

(** X16.  Escaping never shortens a text, and it leaves a text unchanged
    exactly when the text holds none of the five special characters. *)
Theorem escapeHtml_fixed_points (s : string) :
  (String.length s <= String.length (escapeHtml s))%nat
  /\ (escapeHtml s = s <-> all_chars (fun c => negb (html_special c)) s = true).
Proof.
  rewrite escapeHtml_each. split; [apply escape_each_length|].
  induction s as [|c s IH]; [split; reflexivity|].
  cbn [escape_each all_chars].
  destruct (escape_char_cases c) as [[Hc Ec]|Hspecial].
  - rewrite Ec, Hc. cbn [String.append negb andb]. rewrite <- IH.
    split; [intros [= H]; exact H | intros ->; reflexivity].
  - assert (html_special c = true /\ (1 < String.length (escape_char c))%nat) as [Hc Hlen].
    { destruct Hspecial as [[-> ->]|[[-> ->]|[[-> ->]|[[-> ->]|[-> ->]]]]];
        split; try reflexivity; cbn; lia. }
    rewrite Hc. cbn [negb andb]. split; [|discriminate].
    intros H. exfalso. apply (f_equal String.length) in H.
    rewrite length_append in H. cbn [String.length] in H.
    pose proof (escape_each_length s). lia.
Qed.

(** ** Further properties of the render rules *)

(** X17.  The block rule contains or escalates an engine failure for
    every options object, with or without an error colour: it throws
    exactly when the resolved [throwOnError] is true, and then throws the
    engine's error with the content as [diagnostics.source]; otherwise it
    returns the wrapper element with classes [katex-block katex-error], the
    escaped error text as title and the escaped content as body. *)
Theorem renderBlock_failure (Env : Type)
  (engine : string -> Options Env -> bool -> EngineResult)
  (options : Options Env) (tokens : list Token) (idx : nat) (env : Env)
  (token : Token) (error : KatexError) :
  nth_error tokens idx = Some token ->
  engine (content token)
         (engine_options (default_options options)
                         (resolve_throwOnError options env)) true
  = Failed error ->
  render_math_block (plugin engine options) tokens idx env
  = if resolve_throwOnError options env
    then Throw (Raised (set_diagnostics_source error (content token)))
    else Return (block_fallback (wrapper_tag options) (err_text error) (content token)).
Proof.
  intros Htok Hengine.
  unfold plugin. cbn [render_math_block]. unfold renderBlock, token_content.
  rewrite Htok. cbn [bind].
  replace (resolve_throwOnError (default_options options) env)
    with (resolve_throwOnError options env) by reflexivity.
  rewrite Hengine.
  destruct (resolve_throwOnError options env); [reflexivity|].
  unfold block_fallback, wrapper_tag, default_options. cbn [blockWrapper].
  destruct (blockWrapper options) as [[w|]|]; reflexivity.
Qed.

Lemma renderBlock_failure_witness :
  render_math_block (plugin (failing_engine "bad") no_options)
    [block_token "a<b" (0, 1)] 0 tt
  = Return (block_fallback "div" "bad" "a<b")
  /\ render_math_block
       (plugin (failing_engine "bad")
               (mkOptions None (ThrowFn (fun _ : unit => true)) None []))
       [block_token "a<b" (0, 1)] 0 tt
     = Throw (Raised (mkError "bad" [("source", "a<b")])).
Proof.
  split.
  - exact (renderBlock_failure unit (failing_engine "bad") no_options
             [block_token "a<b" (0, 1)] 0 tt (block_token "a<b" (0, 1))
             (mkError "bad" []) eq_refl eq_refl).
  - exact (renderBlock_failure unit (failing_engine "bad")
             (mkOptions None (ThrowFn (fun _ : unit => true)) None [])
             [block_token "a<b" (0, 1)] 0 tt (block_token "a<b" (0, 1))
             (mkError "bad" []) eq_refl eq_refl).
Defined.

(** X18.  When the engine renders the content, the inline rule returns
    the engine output followed by one newline, for every options object:
    neither the error colour nor the wrapper nor the flag is looked at. *)
Theorem renderInline_success (Env : Type)
  (engine : string -> Options Env -> bool -> EngineResult)
  (options : Options Env) (tokens : list Token) (idx : nat) (env : Env)
  (token : Token) (rendered : string) :
  nth_error tokens idx = Some token ->
  engine (content token)
         (engine_options (default_options options)
                         (resolve_throwOnError options env)) false
  = Rendered rendered ->
  render_math_inline (plugin engine options) tokens idx env
  = Return (rendered ++ LF)%string.
Proof.
  intros Htok Hengine.
  unfold plugin. cbn [render_math_inline]. unfold renderInline, token_content.
  rewrite Htok. cbn [bind].
  replace (resolve_throwOnError (default_options options) env)
    with (resolve_throwOnError options env) by reflexivity.
  rewrite Hengine. reflexivity.
Qed.

Lemma renderInline_success_witness :
  render_math_inline (plugin identity_engine no_options) [inline_token "x^2"] 0 tt
  = Return ("x^2" ++ LF)%string.
Proof.
  exact (renderInline_success unit identity_engine no_options
           [inline_token "x^2"] 0 tt (inline_token "x^2") "x^2" eq_refl eq_refl).
Defined.

(** X19.  A render rule called with an index past the token list throws
    a [TypeError] on reading the token, before the engine is called and
    whatever [throwOnError] says; this holds for the two rules of the
    primary implementation and the two of the legacy variant. *)
Theorem render_missing_token (Env : Type)
  (engine : string -> Options Env -> bool -> EngineResult)
  (options : Options Env) (tokens : list Token) (idx : nat) (env : Env) :
  (List.length tokens <= idx)%nat ->
  render_math_inline (plugin engine options) tokens idx env
  = Throw (TypeError "Cannot read properties of undefined (reading 'content')")
  /\ render_math_block (plugin engine options) tokens idx env
     = Throw (TypeError "Cannot read properties of undefined (reading 'content')")
  /\ render_math_inline (Legacy.math_plugin engine options) tokens idx env
     = Throw (TypeError "Cannot read properties of undefined (reading 'content')")
  /\ render_math_block (Legacy.math_plugin engine options) tokens idx env
     = Throw (TypeError "Cannot read properties of undefined (reading 'content')").
Proof.
  intros Hidx. apply nth_error_None in Hidx.
  unfold plugin, Legacy.math_plugin.
  cbn [render_math_inline render_math_block].
  unfold renderInline, renderBlock, Legacy.inlineRenderer, Legacy.blockRenderer,
    token_content.
  rewrite Hidx. repeat split; reflexivity.
Qed.

Lemma render_missing_token_witness :
  render_math_inline (plugin identity_engine no_options) [inline_token "x"] 1 tt
  = Throw (TypeError "Cannot read properties of undefined (reading 'content')").
Proof.
  exact (proj1 (render_missing_token unit identity_engine no_options
                  [inline_token "x"] 1 tt (le_n 1))).
Defined.

(** X20.  The legacy rules on an engine failure.  They throw exactly
    when [options.throwOnError] is truthy, and a predicate is truthy
    whatever it would return: it is never called.  What they throw is a new
    object with the message ["KaTeX error"], the content as [source] and
    the engine's error unchanged; otherwise they return a [span] (inline)
    or a [p] with class [katex-block] (block), with class [katex-error],
    single-quoted attributes, the escaped error text as title and the
    escaped content as body. *)
Theorem legacy_render_failure (Env : Type)
  (engine : string -> Options Env -> bool -> EngineResult)
  (options : Options Env) (tokens : list Token) (idx : nat) (env : Env)
  (token : Token) (error : KatexError) (displayMode : bool) :
  nth_error tokens idx = Some token ->
  engine (content token) options displayMode = Failed error ->
  (if displayMode
   then render_math_block (Legacy.math_plugin engine options) tokens idx env
   else render_math_inline (Legacy.math_plugin engine options) tokens idx env)
  = match throwOnError options with
    | ThrowAbsent | ThrowFlag false =>
        Return (if displayMode
                then "<p class='katex-block katex-error' title='"
                     ++ escapeHtml (err_text error) ++ "'>"
                     ++ escapeHtml (content token) ++ "</p>"
                else "<span class='katex-error' title='"
                     ++ escapeHtml (err_text error) ++ "'>"
                     ++ escapeHtml (content token) ++ "</span>")%string
    | ThrowFlag true | ThrowFn _ =>
        Throw (LegacyError "KaTeX error" (content token) error)
    end.
Proof.
  intros Htok Hengine.
  unfold Legacy.math_plugin. cbn [render_math_inline render_math_block].
  unfold Legacy.inlineRenderer, Legacy.blockRenderer, token_content.
  rewrite Htok. cbn [bind].
  unfold Legacy.katexInline, Legacy.katexBlock, Legacy.throwOnError_truthy.
  destruct displayMode; rewrite Hengine;
    destruct (throwOnError options) as [f|[|]|]; reflexivity.
Qed.

Lemma legacy_render_failure_witness :
  render_math_inline
    (Legacy.math_plugin (failing_engine "bad")
       (mkOptions None (ThrowFn (fun _ : unit => false)) None []))
    [inline_token "x"] 0 tt
  = Throw (LegacyError "KaTeX error" "x" (mkError "bad" [])).
Proof.
  exact (legacy_render_failure unit (failing_engine "bad")
           (mkOptions None (ThrowFn (fun _ : unit => false)) None [])
           [inline_token "x"] 0 tt (inline_token "x") (mkError "bad" []) false
           eq_refl eq_refl).
Defined.

(** X21.  The error a primary rule throws again is the engine's error
    with its text and its other diagnostics entries kept: [source] reads
    the content afterwards, whether or not the entry existed, every other
    key reads what it read before, and at most one entry is added. *)
Theorem set_diagnostics_source_entries (error : KatexError) (maths : string) :
  err_text (set_diagnostics_source error maths) = err_text error
  /\ entry "source" (err_diagnostics (set_diagnostics_source error maths)) = Some maths
  /\ (forall k, k <> "source" ->
        entry k (err_diagnostics (set_diagnostics_source error maths))
        = entry k (err_diagnostics error))
  /\ (List.length (err_diagnostics (set_diagnostics_source error maths))
      <= S (List.length (err_diagnostics error)))%nat.
Proof.
  destruct error as [text d]. cbn [set_diagnostics_source err_text err_diagnostics].
  split; [reflexivity|].
  induction d as [|[k v] d (IH1 & IH2 & IH3)]; cbn [assign_source].
  - split; [reflexivity|]. split; [|cbn; lia].
    intros k Hk. cbn [entry].
    destruct (String.eqb_spec "source" k); [congruence | reflexivity].
  - destruct (String.eqb_spec k "source") as [->|Hne].
    + split; [reflexivity|]. split; [|cbn; lia].
      intros k Hk. cbn [entry].
      destruct (String.eqb_spec "source" k); [congruence | reflexivity].
    + cbn [entry]. destruct (String.eqb_spec k "source"); [contradiction|].
      split; [exact IH1|]. split; [|cbn [List.length]; lia].
      intros k' Hk'. destruct (String.eqb_spec k k'); [reflexivity|].
      apply IH2. exact Hk'.
Qed.

(** X22.  Fallback markup cannot be broken by the input.  On an engine
    failure with the resolved flag false, the title and the body that the
    block rule (always) and the inline rule (with an error colour) embed
    hold no [<], [>], double quote or single quote, whatever the error text
    and the content are; the inline style holds the colour escaped in the
    same way. *)
Theorem fallback_markup_escaped (Env : Type)
  (engine : string -> Options Env -> bool -> EngineResult)
  (options : Options Env) (tokens : list Token) (idx : nat) (env : Env)
  (token : Token) (error : KatexError) (displayMode : bool) :
  nth_error tokens idx = Some token ->
  engine (content token)
         (engine_options (default_options options)
                         (resolve_throwOnError options env)) displayMode
  = Failed error ->
  resolve_throwOnError options env = false ->
  (displayMode = false -> errorColor options <> None) ->
  exists color title body,
    (if displayMode
     then render_math_block (plugin engine options) tokens idx env
     else render_math_inline (plugin engine options) tokens idx env)
    = Return (if displayMode
              then "<" ++ wrapper_tag options ++ " class=" ++ DQ
                   ++ "katex-block katex-error" ++ DQ
                   ++ " title=" ++ DQ ++ title ++ DQ ++ ">"
                   ++ body ++ "</" ++ wrapper_tag options ++ ">"
              else "<span class=" ++ DQ ++ "katex-error" ++ DQ
                   ++ " style=" ++ DQ ++ "color:" ++ color ++ DQ
                   ++ " title=" ++ DQ ++ title ++ DQ ++ ">"
                   ++ body ++ "</span>")%string
    /\ all_chars (fun c => negb (html_delimiter c)) color = true
    /\ all_chars (fun c => negb (html_delimiter c)) title = true
    /\ all_chars (fun c => negb (html_delimiter c)) body = true.
Proof.
  intros Htok Hengine Hflag Hcolor.
  destruct displayMode.
  - exists "", (escapeHtml (err_text error)), (escapeHtml (content token)).
    split; [|split; [reflexivity | split; apply escapeHtml_no_delimiter_aux]].
    unfold plugin. cbn [render_math_block]. unfold renderBlock, token_content.
    rewrite Htok. cbn [bind].
    replace (resolve_throwOnError (default_options options) env)
      with (resolve_throwOnError options env) by reflexivity.
    rewrite Hengine, Hflag.
    unfold wrapper_tag, default_options. cbn [blockWrapper].
    destruct (blockWrapper options) as [[w|]|]; reflexivity.
  - destruct (errorColor options) as [c|] eqn:Ec; [|exfalso; apply Hcolor; reflexivity].
    exists (escapeHtml c), (escapeHtml (err_text error)), (escapeHtml (content token)).
    split; [|repeat split; apply escapeHtml_no_delimiter_aux].
    unfold plugin. cbn [render_math_inline]. unfold renderInline, token_content.
    rewrite Htok. cbn [bind].
    replace (resolve_throwOnError (default_options options) env)
      with (resolve_throwOnError options env) by reflexivity.
    rewrite Hengine, Hflag.
    cbn [default_options errorColor]. rewrite Ec. reflexivity.
Qed.

Lemma fallback_markup_escaped_witness :
  exists color title body,
    render_math_inline
      (plugin (failing_engine ">bad<")
              (mkOptions (Env := unit) None ThrowAbsent (Some "#c00") []))
      [inline_token "a<b"] 0 tt
    = Return ("<span class=" ++ DQ ++ "katex-error" ++ DQ
              ++ " style=" ++ DQ ++ "color:" ++ color ++ DQ
              ++ " title=" ++ DQ ++ title ++ DQ ++ ">"
              ++ body ++ "</span>")%string
    /\ all_chars (fun c => negb (html_delimiter c)) color = true
    /\ all_chars (fun c => negb (html_delimiter c)) title = true
    /\ all_chars (fun c => negb (html_delimiter c)) body = true.
Proof.
  exact (fallback_markup_escaped unit (failing_engine ">bad<")
           (mkOptions None ThrowAbsent (Some "#c00") [])
           [inline_token "a<b"] 0 tt (inline_token "a<b") (mkError ">bad<" []) false
           eq_refl eq_refl eq_refl (fun _ H => ltac:(discriminate H))).
Defined.

(** ** The inline rule and the rest of the state *)

(** X23.  What the inline rule does in commit mode is decided by the
    buffer, the cursor and the scan limit alone.  For each of them there
    are a boolean, a new cursor and either a text or the content of a
    token such that, whatever the pending text and the token list are, the
    rule returns that boolean, moves the cursor there, and either appends
    that text to the pending text and leaves the token list as it is, or
    pushes one [math_inline] token with markup ["$"] and that content.  In
    the second case the host's [push] first turns a non-empty pending text
    into a [text] token and empties it, so the new token list is the old
    one, then the flushed pending text, then the math token.  Nothing that
    was pending or emitted is removed or rewritten. *)
Theorem math_inline_frame (s : string) (p mx : Z) :
  exists (b : bool) (p' : Z) (delta : string) (emitted : option string),
    forall pend toks,
      math_inline (mkInline s p mx pend toks) false
      = (b,
         match emitted with
         | None => mkInline s p' mx (pend ++ delta)%string toks
         | Some text =>
             mkInline s p' mx ""
               (toks ++ flushed_pending pend
                ++ [mkToken "math_inline" "math" 0 "$" text false None])
         end).
Proof.
  destruct (Js.char_is (Js.char_at s p) "$") eqn:E.
  2: { exists false, p, "", None.
       intros pend toks. unfold math_inline. cbn [src pos]. rewrite E. cbn [negb].
       rewrite append_empty_r. reflexivity. }
  assert (forall pend toks q,
            isValidDelimiter (mkInline s p mx pend toks) q
            = isValidDelimiter (mkInline s p mx "" []) q) as Hdelim by reflexivity.
  destruct (can_open (isValidDelimiter (mkInline s p mx "" []) p)) eqn:Eo.
  2: { exists true, (p + 1), "$", None.
       intros pend toks. unfold math_inline. cbn [src pos]. rewrite E, Hdelim, Eo.
       reflexivity. }
  destruct (find_closing s (p + 1) =? -1) eqn:E1.
  { exists true, (p + 1), "$", None.
    intros pend toks. unfold math_inline. cbn [src pos]. rewrite E, Hdelim, Eo.
    cbn [negb]. cbn zeta. rewrite E1. reflexivity. }
  destruct (find_closing s (p + 1) - (p + 1) =? 0) eqn:E2.
  { exists true, (p + 1 + 1), "$$", None.
    intros pend toks. unfold math_inline. cbn [src pos]. rewrite E, Hdelim, Eo.
    cbn [negb]. cbn zeta. rewrite E1, E2. reflexivity. }
  destruct (can_close (isValidDelimiter (mkInline s p mx "" [])
                         (find_closing s (p + 1)))) eqn:Ec.
  - exists true, (find_closing s (p + 1) + 1), "",
      (Some (Js.slice s (p + 1) (find_closing s (p + 1)))).
    intros pend toks. unfold math_inline. cbn [src pos]. rewrite E, Hdelim, Eo.
    cbn [negb]. cbn zeta. rewrite E1, E2, Hdelim, Ec. cbn [negb].
    rewrite push_inline_result. reflexivity.
  - exists true, (p + 1), "$", None.
    intros pend toks. unfold math_inline. cbn [src pos]. rewrite E, Hdelim, Eo.
    cbn [negb]. cbn zeta. rewrite E1, E2, Hdelim, Ec. reflexivity.
Qed.

(** ** The closing line of a block *)

Lemma substring_add (s : string) (n a b : nat) :
  substring n (a + b) s = (substring n a s ++ substring (n + a) b s)%string.
Proof.
  revert n a. induction s as [|c s IH]; intros n a.
  - destruct n, a, b; reflexivity.
  - destruct n as [|n].
    + destruct a as [|a]; [reflexivity|].
      cbn [Nat.add substring String.append]. rewrite (IH 0%nat a). reflexivity.
    + cbn [Nat.add substring]. apply IH.
Qed.

Lemma substring_all (s : string) : substring 0 (String.length s) s = s.
Proof.
  induction s as [|c s IH]; [reflexivity|]. cbn. now rewrite IH.
Qed.

Lemma append_inj_length (a b c d : string) :
  (a ++ b)%string = (c ++ d)%string -> String.length a = String.length c ->
  a = c /\ b = d.
Proof.
  revert c. induction a as [|x a IH]; intros [|y c] H Hlen; try discriminate Hlen.
  - split; [reflexivity | exact H].
  - cbn in H, Hlen. injection H as -> H. injection Hlen as Hlen.
    destruct (IH c H Hlen) as [-> ->]. split; reflexivity.
Qed.

Lemma trimStart_split (s : string) :
  exists w, all_chars Js.is_white w = true /\ s = (w ++ Js.trimStart s)%string.
Proof.
  induction s as [|c s (w & Hw & Hs)].
  - exists "". split; reflexivity.
  - cbn [Js.trimStart]. destruct (Js.is_white c) eqn:E.
    + exists (String c w). cbn [all_chars String.append]. rewrite E, Hw, <- Hs.
      split; reflexivity.
    + exists "". split; reflexivity.
Qed.

Lemma trimEnd_split (s : string) :
  exists w, all_chars Js.is_white w = true /\ s = (Js.trimEnd s ++ w)%string.
Proof.
  induction s as [|c s (w & Hw & Hs)].
  - exists "". split; reflexivity.
  - cbn [Js.trimEnd]. destruct (Js.trimEnd s) as [|d r] eqn:E.
    + destruct (Js.is_white c) eqn:Ec.
      * exists (String c w). cbn [all_chars String.append]. rewrite Ec, Hw.
        split; [reflexivity|]. cbn in Hs. now rewrite <- Hs.
      * exists w. split; [exact Hw|]. cbn in Hs |- *. now rewrite <- Hs.
    + exists w. split; [exact Hw|]. cbn [String.append] in Hs |- *. now rewrite <- Hs.
Qed.

(** A text whose last two characters are ["$$"]. *)
Lemma ends_with_marker (t : string) :
  Js.slice_from t (-2) = "$$" ->
  exists t', t = (t' ++ "$$")%string.
Proof.
  unfold Js.slice_from, Js.slice, Js.rel_index, Js.len. intros H.
  destruct (Z.ltb_spec (Z.of_nat (String.length t)) 0); [lia|].
  cbn [Z.ltb Z.compare] in H. rewrite Z.min_id in H.
  destruct (Nat.le_gt_cases 2 (String.length t)) as [Hlen|Hlen].
  - rewrite Z.max_l in H by lia.
    exists (substring 0 (String.length t - 2) t).
    replace (Z.to_nat (Z.of_nat (String.length t) + -2))
      with (String.length t - 2)%nat in H by lia.
    replace (Z.to_nat (Z.of_nat (String.length t)
                       - (Z.of_nat (String.length t) + -2))) with 2%nat in H by lia.
    rewrite <- H.
    rewrite <- (substring_all t) at 1.
    replace (String.length t) with ((String.length t - 2) + 2)%nat at 1 by lia.
    apply substring_add.
  - exfalso. rewrite Z.max_r in H by lia.
    replace (Z.to_nat (Z.of_nat (String.length t) - 0)) with (String.length t) in H by lia.
    cbn [Z.to_nat] in H. rewrite substring_all in H. subst t. cbn in Hlen. lia.
Qed.

Lemma white_no_marker (w : string) (k : Z) :
  all_chars Js.is_white w = true ->
  Js.lastIndexOf_from "$$" w k = -1
  /\ Js.starts_with "$" w = false.
Proof.
  revert k. induction w as [|c w IH]; intros k Hw; [split; reflexivity|].
  cbn [all_chars] in Hw. apply andb_true_iff in Hw. destruct Hw as [Hc Hw].
  assert (Ascii.eqb "$" c = false) as Ec.
  { destruct (Ascii.eqb_spec "$" c) as [<-|]; [discriminate Hc | reflexivity]. }
  cbn [Js.lastIndexOf_from Js.starts_with]. rewrite Ec.
  rewrite (proj1 (IH (k + 1) Hw)). split; reflexivity.
Qed.

Lemma lastIndexOf_marker (b w : string) (k : Z) :
  0 <= k ->
  all_chars Js.is_white w = true ->
  Js.lastIndexOf_from "$$" (b ++ "$$" ++ w) k = k + Js.len b.
Proof.
  revert k. induction b as [|c b IH]; intros k Hk Hw.
  - cbn [String.append Js.lastIndexOf_from].
    destruct (white_no_marker w (k + 1 + 1) Hw) as [E1 E2].
    rewrite E1. cbn [Z.eqb].
    change (Js.starts_with "$$" (String "$" w))
      with (Ascii.eqb "$" "$" && Js.starts_with "$" w).
    rewrite E2. cbn. unfold Js.len. cbn. lia.
  - change (String c b ++ "$$" ++ w)%string with (String c (b ++ "$$" ++ w)).
    cbn [Js.lastIndexOf_from]. rewrite (IH (k + 1)) by (lia || exact Hw).
    unfold Js.len. cbn [String.length].
    destruct (Z.eqb_spec (k + 1 + Z.of_nat (String.length b)) (-1)); lia.
Qed.

(** X24.  The closing line is split exactly at its closing marker.  For a
    line that lies within the buffer and whose trimmed text ends with
    ["$$"], the position the rule finds with [lastIndexOf] over the buffer
    up to the end of the line is that of the final marker: the text of the
    line is the part the rule keeps as last-line content, then ["$$"], then
    white space only. *)
Theorem closing_line_split (state : StateBlock) (n : Z) :
  0 <= bMarks state n + tShift state n <= eMarks state n ->
  eMarks state n <= Js.len (bsrc state) ->
  Js.slice_from
    (Js.trim (Js.slice (bsrc state) (bMarks state n + tShift state n) (eMarks state n)))
    (-2) = "$$" ->
  exists w,
    all_chars Js.is_white w = true
    /\ Js.slice (bsrc state) (bMarks state n + tShift state n) (eMarks state n)
       = (Js.slice (bsrc state) (bMarks state n + tShift state n)
            (Js.lastIndexOf (Js.slice (bsrc state) 0 (eMarks state n)) "$$")
          ++ "$$" ++ w)%string.
Proof.
  set (s := bsrc state). set (p := bMarks state n + tShift state n).
  set (mx := eMarks state n). intros Hp Hmx Hends.
  rewrite (slice_in_range s p mx) in * by lia.
  rewrite (slice_in_range s 0 mx) by lia.
  set (pn := Z.to_nat p) in *. set (ln := Z.to_nat (mx - p)) in *.
  replace (Z.to_nat (mx - 0)) with (pn + ln)%nat by lia.
  cbn [Z.to_nat]. rewrite (substring_add s 0 pn ln). cbn [Nat.add].
  set (L := substring pn ln s) in *. set (A := substring 0 pn s).
  assert (String.length A = pn) as HlenA.
  { unfold A. apply substring_length. unfold Js.len in Hmx. lia. }
  unfold Js.trim in Hends.
  destruct (trimStart_split L) as (w0 & Hw0 & HL).
  destruct (trimEnd_split (Js.trimStart L)) as (w & Hw & HT).
  destruct (ends_with_marker _ Hends) as (t' & Ht').
  assert (L = ((w0 ++ t') ++ "$$" ++ w)%string) as HLsplit.
  { rewrite HL at 1. rewrite HT at 1. rewrite Ht'.
    rewrite <- !append_associative. reflexivity. }
  exists w. split; [exact Hw|].
  assert (Js.lastIndexOf (A ++ L) "$$" = Js.len (A ++ w0 ++ t')) as Hlast.
  { unfold Js.lastIndexOf. rewrite HLsplit.
    rewrite (append_associative A (w0 ++ t')).
    rewrite (lastIndexOf_marker (A ++ w0 ++ t') w 0 ltac:(lia) Hw). lia. }
  rewrite Hlast.
  assert (Js.len (A ++ w0 ++ t') = p + Z.of_nat (String.length (w0 ++ t'))) as Hlen.
  { unfold Js.len. rewrite length_append, HlenA. lia. }
  assert (String.length L = ln) as HlenL.
  { unfold L. apply substring_length. unfold Js.len in Hmx. lia. }
  assert (String.length (w0 ++ t') + 2 + String.length w = ln)%nat as Hsum.
  { rewrite <- HlenL. rewrite HLsplit. rewrite !length_append. cbn. lia. }
  rewrite slice_in_range by (unfold Js.len in *; lia).
  fold pn. rewrite Hlen.
  replace (Z.to_nat (p + Z.of_nat (String.length (w0 ++ t')) - p))
    with (String.length (w0 ++ t')) by lia.
  assert (substring pn (String.length (w0 ++ t')) s = (w0 ++ t')%string) as Hkeep.
  { assert (L = (substring pn (String.length (w0 ++ t')) s
                 ++ substring (pn + String.length (w0 ++ t')) (2 + String.length w) s)%string)
      as Hadd.
    { unfold L. rewrite <- substring_add. f_equal. lia. }
    rewrite HLsplit in Hadd at 1.
    symmetry. apply (append_inj_length _ _ _ _ Hadd).
    rewrite substring_length; [reflexivity|]. unfold Js.len in Hmx. lia. }
  rewrite Hkeep. exact HLsplit.
Qed.

Lemma closing_line_split_witness :
  exists w,
    all_chars Js.is_white w = true
    /\ Js.slice ("$$" ++ LF ++ "a" ++ LF ++ "b $$  ") 5 11
       = (Js.slice ("$$" ++ LF ++ "a" ++ LF ++ "b $$  ") 5
            (Js.lastIndexOf (Js.slice ("$$" ++ LF ++ "a" ++ LF ++ "b $$  ") 0 11) "$$")
          ++ "$$" ++ w)%string.
Proof.
  apply (closing_line_split
           (block_state ("$$" ++ LF ++ "a" ++ LF ++ "b $$  ")
                        [0; 3; 5; 11] [0; 0; 0; 0] [2; 4; 11; 11] 0 (fun _ _ _ _ => ""))
           2).
  - vm_compute. split; discriminate.
  - vm_compute. discriminate.
  - vm_compute. reflexivity.
Defined.

(** ** The search on its own *)

(** X25.  The forward search is complete.  From every start position it
    returns [-1] exactly when no ["$"] at or after the start is preceded
    by an even number of backslashes, and it returns an index [m] other than
    [-1] exactly when [m] is the first such ["$"]. *)
Theorem find_closing_complete (s : string) (start : Z) :
  (find_closing s start = -1
   <-> forall j, start <= j -> ~ unescaped_dollar s j)
  /\ (forall m, m <> -1 ->
        (find_closing s start = m <-> first_unescaped s start m)).
Proof.
  assert (forall j, escaped_dollar s j -> ~ unescaped_dollar s j) as Hexcl.
  { intros j [_ Ho] [_ He]. rewrite <- Nat.negb_even, He in Ho. discriminate. }
  destruct (find_closing_spec s start) as [[E Hall]|[Hne Hfirst]];
    cbn zeta in *; split.
  - split; [intros _ j Hj Hu | intros _; exact E].
    destruct Hu as [Hc He]. exact (Hexcl j (Hall j Hj Hc) (conj Hc He)).
  - intros m Hm. split.
    + intros Hfind. congruence.
    + intros Hf. apply find_closing_first_unescaped. exact Hf.
  - split; [intros E; contradiction|].
    intros Hnone. exfalso. destruct Hfirst as (Hge & Hu & _).
    exact (Hnone _ Hge Hu).
  - intros m Hm. split.
    + intros <-. exact Hfirst.
    + intros Hf. apply find_closing_first_unescaped. exact Hf.
Qed.
